(** * nl: notifiers, listeners and trackable objects

    A shallow embedding of [nl/listener.hpp], [nl/trackable.hpp] and
    [nl/notifier.hpp].

    Objects live in a store indexed by their address.  A member function
    that dereferences an address holding no live object, erases through an
    iterator that designates no element of the list, or erases [end()] has
    undefined behaviour in C++; every such operation returns [None] here.
    So does a constructor asked to build an object where one already
    lives.

    The standard-library pieces the headers call ([std::list],
    [std::forward_list], [std::remove_if]) are modelled by their
    specification; [std::remove_if] is the usual two-cursor loop. *)

From stdpp Require Import base option list gmap.

(** ** Addresses *)

Abbreviation addr := N.
Definition nullptr : addr := 0%N.

(** ** Standard-library algorithms used by the headers *)

Section std.
Context {A : Type}.

(** [std::find_if]: position of the first element satisfying [pred],
    the length of the range when there is none. *)
Fixpoint std_find_if (pred : A → bool) (l : list A) : nat :=
  match l with
  | [] => 0
  | x :: l' => if pred x then 0 else S (std_find_if pred l')
  end.

(** The loop of [std::remove_if]:
    for each position [first] up to [last], an element that does not
    satisfy [pred] is move-assigned to position [result], which then
    advances.  [n] counts the elements from [first] to [last].  A listener
    has the implicit, copying move assignment, so the source of a move keeps
    its value. *)
Fixpoint remove_if_loop (pred : A → bool) (n first result : nat)
    (arr : list A) : list A * nat :=
  match n with
  | 0 => (arr, result)
  | S n' =>
      match arr !! first with
      | Some x =>
          if pred x then remove_if_loop pred n' (S first) result arr
          else remove_if_loop pred n' (S first) (S result) (<[result := x]> arr)
      | None => (arr, result)
      end
  end.

(** [std::remove_if(begin, end, pred)] on a sequence held in place: the
    contents of the sequence afterwards, and the position of the returned
    iterator (the new logical end). *)
Definition std_remove_if (pred : A → bool) (arr : list A) : list A * nat :=
  let first := std_find_if pred arr in
  if decide (first = length arr) then (arr, first)
  else remove_if_loop pred (length arr - S first) (S first) first arr.

(** [std::list::erase(pos)] with [pos] given by its position: erasing
    [end()] (or anything past it) is undefined. *)
Definition list_erase_at (pos : nat) (l : list A) : option (list A) :=
  if decide (pos < length l) then Some (delete pos l) else None.

(** [std::forward_list::remove_if(pred)]: removes every element
    satisfying [pred]. *)
Definition forward_list_remove_if (pred : A → bool) (l : list A) : list A :=
  filter (λ x, pred x = false) l.
End std.

(** ** listener.hpp *)

(** The stub a listener points to: one of the five instantiated
    trampolines, named by the function or method it was instantiated
    with. *)
Inductive stub_type :=
  | function_stub (TFunc : N)
  | method_stub (TMethod : N)
  | method_ref_stub (TMethod : N)
  | method_const_stub (TMethod : N)
  | method_const_ref_stub (TMethod : N).

Record listener := Listener {
  m_stub : stub_type;
  m_object : addr;
  m_trackable : bool
}.

Global Instance stub_type_eq_dec : EqDecision stub_type.
Proof. solve_decision. Defined.
Global Instance listener_eq_dec : EqDecision listener.
Proof. solve_decision. Defined.

(** [listener::make<TFunc>()] *)
Definition make_function (TFunc : N) : listener :=
  Listener (function_stub TFunc) nullptr false.

(** [listener::make<TObj, TMethod>(obj)] for the four method
    qualifications; [is_trackable_TObj] is
    [detail::is_trackable<TObj>::value]. *)
Definition make_method (is_trackable_TObj : bool) (TMethod : N) (obj : addr) : listener :=
  Listener (method_stub TMethod) obj is_trackable_TObj.
Definition make_method_ref (is_trackable_TObj : bool) (TMethod : N) (obj : addr) : listener :=
  Listener (method_ref_stub TMethod) obj is_trackable_TObj.
Definition make_method_const (is_trackable_TObj : bool) (TMethod : N) (obj : addr) : listener :=
  Listener (method_const_stub TMethod) obj is_trackable_TObj.
Definition make_method_const_ref (is_trackable_TObj : bool) (TMethod : N) (obj : addr) : listener :=
  Listener (method_const_ref_stub TMethod) obj is_trackable_TObj.

Definition is_trackable (l : listener) : bool := m_trackable l.
Definition get_object (l : listener) : addr := m_object l.
Definition has_object (l : listener) : bool := negb (bool_decide (get_object l = nullptr)).

(** ** The object store *)

(** [trackable::track_func]: the only function ever registered is the
    notifier's [disconnect_trackable] thunk. *)
Inductive track_func := disconnect_trackable_thunk.

(** [trackable::callback] *)
Record callback := Callback {
  cb_function : track_func;
  cb_notifier : addr;
  cb_object : addr
}.

Global Instance track_func_eq_dec : EqDecision track_func.
Proof. solve_decision. Defined.
Global Instance callback_eq_dec : EqDecision callback.
Proof. solve_decision. Defined.

(** A node of a notifier's [std::list]: its identity (what an iterator
    designates) and the listener it holds. *)
Abbreviation iterator := nat.
Abbreviation node := (nat * listener)%type.

(** The live notifiers with their [m_listeners], the live trackable
    objects with their [m_callbacks], and the next unused node identity. *)
Record heap := Heap {
  notifiers : gmap addr (list node);
  trackables : gmap addr (list callback);
  next_node : nat
}.

Definition empty_heap : heap := Heap ∅ ∅ 0.

Definition set_notifiers (f : gmap addr (list node) → gmap addr (list node))
    (h : heap) : heap :=
  Heap (f (notifiers h)) (trackables h) (next_node h).
Definition set_trackables (f : gmap addr (list callback) → gmap addr (list callback))
    (h : heap) : heap :=
  Heap (notifiers h) (f (trackables h)) (next_node h).

(** Running a fallible step over a list, left to right. *)
Fixpoint for_each {A S : Type} (f : A → S → option S) (l : list A) (s : S) : option S :=
  match l with
  | [] => Some s
  | x :: l' => s' ← f x s; for_each f l' s'
  end.

(** ** trackable.hpp *)

(** [trackable::trackable()]: a trackable (sub)object comes to life at [o]
    with no callbacks. *)
Definition trackable_ctor (o : addr) (h : heap) : option heap :=
  match trackables h !! o with
  | Some _ => None
  | None => Some (set_trackables <[o := []]> h)
  end.

(** [trackable::track(notifier, func)]:
    [m_callbacks.push_front({func, notifier, this})] *)
Definition track (o : addr) (notifier : addr) (func : track_func) (h : heap) : option heap :=
  cbs ← trackables h !! o;
  Some (set_trackables <[o := Callback func notifier o :: cbs]> h).

(** [trackable::untrack(notifier)]:
    [m_callbacks.remove_if(cllbck.notifier == notifier)] *)
Definition untrack (o : addr) (notifier : addr) (h : heap) : option heap :=
  cbs ← trackables h !! o;
  Some (set_trackables
          <[o := forward_list_remove_if (λ cb, bool_decide (cb_notifier cb = notifier)) cbs]> h).

(** ** notifier.hpp *)

(** [notifier::connection]: [m_notifier] is [None] for the null pointer. *)
Record connection := Connection {
  m_notifier : option addr;
  m_listener : iterator
}.

(** [notifier::notifier()] *)
Definition notifier_ctor (n : addr) (h : heap) : option heap :=
  match notifiers h !! n with
  | Some _ => None
  | None => Some (set_notifiers <[n := []]> h)
  end.

(** [notifier::connect(lstnr)]: track when the listener is trackable, then
    [m_listeners.push_front(lstnr)]; the connection holds
    [m_listeners.begin()]. *)
Definition connect (n : addr) (lstnr : listener) (h : heap) : option (connection * heap) :=
  h1 ← (if is_trackable lstnr
        then track (get_object lstnr) n disconnect_trackable_thunk h
        else Some h);
  ls ← notifiers h1 !! n;
  let it := next_node h1 in
  Some (Connection (Some n) it,
        Heap (<[n := (it, lstnr) :: ls]> (notifiers h1)) (trackables h1) (S it)).

(** The position of the node an iterator designates, the length of the list
    when it designates none of its nodes. *)
Definition iterator_position (it : iterator) (ls : list node) : nat :=
  std_find_if (λ nd : node, bool_decide (nd.1 = it)) ls.

(** [notifier::disconnect(iterator)]: [m_listeners.erase(lstnr_iter)] *)
Definition disconnect_iterator (n : addr) (it : iterator) (h : heap) : option heap :=
  ls ← notifiers h !! n;
  ls' ← list_erase_at (iterator_position it ls) ls;
  Some (set_notifiers <[n := ls']> h).

(** [connection::disconnect()] *)
Definition connection_disconnect (c : connection) (h : heap) : option (connection * heap) :=
  match m_notifier c with
  | Some n =>
      h' ← disconnect_iterator n (m_listener c) h;
      Some (Connection None (m_listener c), h')
  | None => Some (c, h)
  end.

(** [notifier::disconnect(const TObj* obj)]:
    [m_listeners.erase(std::remove_if(begin, end, get_object() == obj))].
    [std::remove_if] reassigns the listeners held by the nodes, the nodes
    themselves stay; the one-iterator [erase] then unlinks the node at the
    returned position. *)
Definition disconnect_object (n : addr) (obj : addr) (h : heap) : option heap :=
  ls ← notifiers h !! n;
  let r := std_remove_if (λ lstnr, bool_decide (get_object lstnr = obj)) (ls.*2) in
  ls' ← list_erase_at (r.2) (zip (ls.*1) (r.1));
  Some (set_notifiers <[n := ls']> h).

(** [notifier::disconnect_all()]: [m_listeners.clear()] *)
Definition disconnect_all (n : addr) (h : heap) : option heap :=
  _ ← notifiers h !! n;
  Some (set_notifiers <[n := []]> h).

(** [notifier::disconnect_trackable(notifier, obj)] *)
Definition disconnect_trackable (notifier : addr) (obj : addr) (h : heap) : option heap :=
  disconnect_object notifier obj h.

(** [trackable::callback::operator()]: [( *function)(notifier, object)] *)
Definition callback_call (cb : callback) (h : heap) : option heap :=
  match cb_function cb with
  | disconnect_trackable_thunk => disconnect_trackable (cb_notifier cb) (cb_object cb) h
  end.

(** [trackable::~trackable()]: every callback is called, then the object
    (and its [m_callbacks]) is gone. *)
Definition trackable_dtor (o : addr) (h : heap) : option heap :=
  cbs ← trackables h !! o;
  h' ← for_each callback_call cbs h;
  Some (set_trackables (delete o) h').

(** The body of the loop of [notifier::~notifier()]. *)
Definition untrack_listener (n : addr) (nd : node) (h : heap) : option heap :=
  if is_trackable nd.2 then untrack (get_object nd.2) n h else Some h.

(** [notifier::~notifier()] *)
Definition notifier_dtor (n : addr) (h : heap) : option heap :=
  ls ← notifiers h !! n;
  h' ← for_each (untrack_listener n) ls h;
  Some (set_notifiers (delete n) h').

(** Copying a [std::list]: new nodes holding the same listeners. *)
Definition copy_nodes (start : nat) (ls : list node) : list node :=
  zip (seq start (length ls)) (ls.*2).

(** [notifier::notifier(const this_type&)], defaulted: a new notifier at
    [n'] whose [m_listeners] is a copy of that of [n]. *)
Definition notifier_copy_ctor (n' n : addr) (h : heap) : option heap :=
  ls ← notifiers h !! n;
  match notifiers h !! n' with
  | Some _ => None
  | None =>
      Some (Heap (<[n' := copy_nodes (next_node h) ls]> (notifiers h)) (trackables h)
              (next_node h + length ls))
  end.

(** Assigning a [std::list] to another: the nodes the target already has
    stay and are assigned the listeners of the source, front to back; when
    the source is longer, new nodes are appended for the rest, and when it
    is shorter, the target's remaining nodes are erased. *)
Definition assign_nodes (start : nat) (old src : list node) : list node :=
  zip (old.*1 ++ seq start (length src - length old)) (src.*2).

(** [notifier::operator=(const this_type&)], defaulted: [m_listeners] of
    [n'] is assigned that of [n]; assigning a list to itself changes
    nothing. *)
Definition notifier_copy_assign (n' n : addr) (h : heap) : option heap :=
  ls ← notifiers h !! n;
  old ← notifiers h !! n';
  if decide (n' = n) then Some h
  else Some (Heap (<[n' := assign_nodes (next_node h) old ls]> (notifiers h))
               (trackables h) (next_node h + (length ls - length old))).

(** *** Broadcasting *)

(** What a call into user code does: it returns, or it throws. *)
Inductive outcome (W E : Type) :=
  | Returned (w : W)
  | Thrown (e : E) (w : W).
Arguments Returned {W E} w.
Arguments Thrown {W E} e w.

Section broadcast.
(** The functions and methods listeners are bound to belong to the caller:
    they act on the caller's state [W] and may throw an [E].  They do not
    reach back into the notifier they are called from. *)
Context {Params W E : Type}.
Context (call_function : N → Params → W → outcome W E).
Context (call_method : N → addr → Params → W → outcome W E).

(** [listener::operator()]: [( *m_stub)(m_object, params...)] *)
Definition listener_call (l : listener) (params : Params) (w : W) : outcome W E :=
  match m_stub l with
  | function_stub f => call_function f params w
  | method_stub m | method_ref_stub m | method_const_stub m | method_const_ref_stub m =>
      call_method m (m_object l) params w
  end.

(** The loop of [notifier::operator()], with the calls it made recorded in
    order: an exception leaves the loop at once. *)
Fixpoint call_each (ls : list listener) (params : Params) (w : W)
    : list (listener * Params) * outcome W E :=
  match ls with
  | [] => ([], Returned w)
  | l :: ls' =>
      match listener_call l params w with
      | Returned w' =>
          let r := call_each ls' params w' in ((l, params) :: r.1, r.2)
      | Thrown e w' => ([(l, params)], Thrown e w')
      end
  end.

(** [notifier::operator()(params...)] *)
Definition broadcast (n : addr) (params : Params) (h : heap) (w : W)
    : option (list (listener * Params) * outcome W E) :=
  ls ← notifiers h !! n;
  Some (call_each (ls.*2) params w).

(** [notifier::notify(params...)] *)
Definition notify (n : addr) (params : Params) (h : heap) (w : W)
    : option (list (listener * Params) * outcome W E) :=
  broadcast n params h w.
End broadcast.

(** ** Sequences of calls *)

(** [connect] with the returned connection dropped. *)
Definition connect_ (n : addr) (lstnr : listener) (h : heap) : option heap :=
  snd <$> connect n lstnr h.

(** Connecting the listeners of [cs] one after the other, first to last,
    with nothing in between. *)
Definition connect_all (n : addr) (cs : list listener) (h : heap) : option heap :=
  for_each (connect_ n) cs h.

(** Calling [connection::disconnect()] [k] times in a row on one
    connection. *)
Fixpoint disconnect_times (k : nat) (c : connection) (h : heap)
    : option (connection * heap) :=
  match k with
  | 0 => Some (c, h)
  | S k' => r ← connection_disconnect c h; disconnect_times k' r.1 r.2
  end.

(** The objects [~notifier()] untracks for a listener list. *)
Definition tracked_objects (ls : list node) : list addr :=
  get_object <$> filter (λ l, is_trackable l = true) (ls.*2).

(** ** Concrete objects used in the examples *)

Definition ex_notifier : addr := 1%N.
Definition ex_copy : addr := 2%N.
Definition ex_object : addr := 7%N.

(** Two methods of one trackable object and a free function. *)
Definition ex_A : listener := make_method true 1 ex_object.
Definition ex_B : listener := make_method_const true 2 ex_object.
Definition ex_X : listener := make_function 3.
(** A free function that throws. *)
Definition ex_T : listener := make_function 4.

(** A script of calls, run in order from a given store. *)
Definition run (script : list (heap → option heap)) (h : heap) : option heap :=
  for_each (λ call, call) script h.

(** A notifier and a trackable object, both just constructed. *)
Definition ex_start : list (heap → option heap) :=
  [notifier_ctor ex_notifier; trackable_ctor ex_object].

(** [N.connect(A); N.connect(B)]: the list is [B, A]. *)
Definition ex_two_bound : list (heap → option heap) :=
  ex_start ++ [connect_ ex_notifier ex_A; connect_ ex_notifier ex_B].

(** [N.connect(X); N.connect(B); N.connect(A)]: the list is [A, B, X]. *)
Definition ex_two_bound_then_free : list (heap → option heap) :=
  ex_start ++ [connect_ ex_notifier ex_X; connect_ ex_notifier ex_B;
               connect_ ex_notifier ex_A].

(** [N.connect(A)] alone. *)
Definition ex_one_bound : list (heap → option heap) :=
  ex_start ++ [connect_ ex_notifier ex_A].

(** [N.connect(X)] alone: nothing is bound to the object. *)
Definition ex_free_only : list (heap → option heap) :=
  ex_start ++ [connect_ ex_notifier ex_X].

(** [N.connect(X); N.connect(A); N.connect(B)]: the list is [B, A, X]. *)
Definition ex_three : list (heap → option heap) :=
  ex_free_only ++ [connect_ ex_notifier ex_A; connect_ ex_notifier ex_B].

(** [N.connect(X); N.connect(T); N.connect(A)]: the list is [A, T, X]. *)
Definition ex_throwing : list (heap → option heap) :=
  ex_free_only ++ [connect_ ex_notifier ex_T; connect_ ex_notifier ex_A].

(** [N.connect(A)] with a second notifier that connects nothing. *)
Definition ex_idle_second : list (heap → option heap) :=
  [notifier_ctor ex_notifier; notifier_ctor ex_copy; trackable_ctor ex_object;
   connect_ ex_notifier ex_A].

(** Two notifiers holding listeners bound to one object. *)
Definition ex_two_notifiers : list (heap → option heap) :=
  [notifier_ctor ex_notifier; notifier_ctor ex_copy; trackable_ctor ex_object;
   connect_ ex_notifier ex_X; connect_ ex_notifier ex_A; connect_ ex_copy ex_B].

(** User code for [notifier<void (int)>]: function 3 appends its argument
    to a log, function 4 throws, every method appends twice its
    argument. *)
Definition ex_call_function (f : N) (arg : Z) (log : list Z) : outcome (list Z) unit :=
  if decide (f = 4%N) then Thrown () log else Returned (log ++ [arg]).
Definition ex_call_method (m : N) (obj : addr) (arg : Z) (log : list Z)
    : outcome (list Z) unit :=
  Returned (log ++ [(arg * 2)%Z]).

(** ** Further members and bookkeeping *)

(** [connection(connection&&)], defaulted: [m_notifier] and [m_listener]
    are moved member by member, which for a pointer and a list iterator is
    a copy.  The pair is the new connection and the one moved from. *)
Definition connection_move (c : connection) : connection * connection :=
  (Connection (m_notifier c) (m_listener c), c).

(** [trackable::trackable(const trackable&)], defaulted: the new object at
    [o'] starts with a copy of the [m_callbacks] of [o]; each copied
    callback keeps the [object] it was made with. *)
Definition trackable_copy_ctor (o' o : addr) (h : heap) : option heap :=
  cbs ← trackables h !! o;
  match trackables h !! o' with
  | Some _ => None
  | None => Some (set_trackables <[o' := cbs]> h)
  end.

(** The listeners of [cs] for which [connect] calls [track] on [o]. *)
Definition bound_trackable (o : addr) (cs : list listener) : list listener :=
  filter (λ l, is_trackable l = true ∧ get_object l = o) cs.

(** The callbacks [connect] pushes on [o] when the listeners [cs] are
    connected to [n]: one per trackable listener bound to [o]. *)
Definition registrations (n o : addr) (cs : list listener) : list callback :=
  replicate (length (bound_trackable o cs)) (Callback disconnect_trackable_thunk n o).

(** The listeners bound to [obj] removed from a list of listeners. *)
Definition unbound (obj : addr) (ls : list listener) : list listener :=
  forward_list_remove_if (λ l, bool_decide (get_object l = obj)) ls.

(** The calls a program can make on notifiers and trackable objects. *)
Inductive call :=
  | NotifierCtor (n : addr)
  | NotifierCopyCtor (n' n : addr)
  | NotifierCopyAssign (n' n : addr)
  | NotifierDtor (n : addr)
  | Connect (n : addr) (lstnr : listener)
  | ConnectionDisconnect (c : connection)
  | DisconnectObject (n obj : addr)
  | DisconnectAll (n : addr)
  | TrackableCtor (o : addr)
  | TrackableCopyCtor (o' o : addr)
  | TrackableDtor (o : addr).

Definition exec (c : call) (h : heap) : option heap :=
  match c with
  | NotifierCtor n => notifier_ctor n h
  | NotifierCopyCtor n' n => notifier_copy_ctor n' n h
  | NotifierCopyAssign n' n => notifier_copy_assign n' n h
  | NotifierDtor n => notifier_dtor n h
  | Connect n lstnr => connect_ n lstnr h
  | ConnectionDisconnect c => snd <$> connection_disconnect c h
  | DisconnectObject n obj => disconnect_object n obj h
  | DisconnectAll n => disconnect_all n h
  | TrackableCtor o => trackable_ctor o h
  | TrackableCopyCtor o' o => trackable_copy_ctor o' o h
  | TrackableDtor o => trackable_dtor o h
  end.

(** The nodes of every list are distinct and were all handed out
    already. *)
Definition nodes_fresh (h : heap) : Prop :=
  map_Forall (λ _ (ls : list node),
    NoDup (ls.*1) ∧ Forall (λ it, it < next_node h) (ls.*1)) (notifiers h).

(** The notifier at [m], if there is one, holds no listener bound to
    [obj]. *)
Definition no_listener_bound (m obj : addr) (h : heap) : Prop :=
  ∀ ls, notifiers h !! m = Some ls → Forall (λ nd : node, get_object nd.2 ≠ obj) ls.

(** The notifier at [m] is live and exactly one of its listeners is bound
    to [obj]. *)
Definition one_listener_bound (m obj : addr) (h : heap) : Prop :=
  ∃ ls, notifiers h !! m = Some ls ∧ S (length (unbound obj (ls.*2))) = length ls.

(** Two notifiers with one listener each bound to the object, which is
    then copied to a second object. *)
Definition ex_second_object : addr := 8%N.
Definition ex_object_copied : list (heap → option heap) :=
  ex_two_notifiers ++ [trackable_copy_ctor ex_second_object ex_object].

(** [N.connect(A); M = N] as a copy construction; then the object dies. *)
Definition ex_copy_then_object_dies : list (heap → option heap) :=
  ex_one_bound ++ [notifier_copy_ctor ex_copy ex_notifier; trackable_dtor ex_object].

(** Lengths of lists built with [++], [::] and [<$>]. *)
Ltac solve_length :=
  repeat (rewrite ?length_fmap, ?length_app; simpl); lia.

(** * Properties *)

(** ** The standard-library algorithms *)

Section std_facts.
Context {A : Type}.
Implicit Types (pred : A → bool) (l arr orig : list A).

Lemma forward_list_remove_if_app pred l1 l2 :
  forward_list_remove_if pred (l1 ++ l2)
  = forward_list_remove_if pred l1 ++ forward_list_remove_if pred l2.
Proof. apply filter_app. Qed.

Lemma forward_list_remove_if_length pred l :
  length (forward_list_remove_if pred l) ≤ length l.
Proof. apply length_filter. Qed.

(** Nothing to remove: the list is returned as it is. *)
Lemma forward_list_remove_if_none pred l :
  Forall (λ x, pred x = false) l → forward_list_remove_if pred l = l.
Proof.
  induction 1 as [|x l Hx _ IH]; [done|].
  unfold forward_list_remove_if in *. rewrite filter_cons_True by done.
  by rewrite IH.
Qed.

Lemma forward_list_remove_if_survivors pred l :
  Forall (λ x, pred x = false) (forward_list_remove_if pred l).
Proof.
  apply Forall_forall. intros x Hx.
  by apply list_elem_of_filter in Hx as [? _].
Qed.

Lemma forward_list_remove_if_idemp pred l :
  forward_list_remove_if pred (forward_list_remove_if pred l)
  = forward_list_remove_if pred l.
Proof. apply forward_list_remove_if_none, forward_list_remove_if_survivors. Qed.

(** [std_find_if] stops at the end exactly when nothing satisfies [pred]. *)
Lemma std_find_if_le pred l : std_find_if pred l ≤ length l.
Proof. induction l as [|x l IH]; simpl; [lia|]. destruct (pred x); lia. Qed.

Lemma std_find_if_end pred l :
  std_find_if pred l = length l ↔ Forall (λ x, pred x = false) l.
Proof.
  induction l as [|x l IH]; simpl.
  - split; [constructor|done].
  - destruct (pred x) eqn:Hx.
    + split; [done|]. intros H. apply Forall_cons in H as [? _]. congruence.
    + rewrite Forall_cons. split.
      * intros [= H]. split; [done|]. by apply IH.
      * intros [_ H]. f_equal. by apply IH.
Qed.

Lemma std_find_if_prefix pred l :
  forward_list_remove_if pred (take (std_find_if pred l) l) = take (std_find_if pred l) l.
Proof.
  induction l as [|x l IH]; simpl; [done|].
  destruct (pred x) eqn:Hx; simpl; [done|].
  unfold forward_list_remove_if in *. rewrite filter_cons_True by done.
  by rewrite IH.
Qed.

(** The invariant of the loop: the positions before [result] hold the
    survivors of the first [first] elements, every other position still
    holds what it held originally. *)
Lemma remove_if_loop_spec pred orig n first result arr :
  first + n = length orig →
  result ≤ first →
  result = length (forward_list_remove_if pred (take first orig)) →
  arr = forward_list_remove_if pred (take first orig) ++ drop result orig →
  remove_if_loop pred n first result arr
  = (forward_list_remove_if pred orig
       ++ drop (length (forward_list_remove_if pred orig)) orig,
     length (forward_list_remove_if pred orig)).
Proof.
  revert first result arr.
  induction n as [|n IH]; intros first result arr Hlen Hle Hres Harr; simpl.
  - assert (first = length orig) as -> by lia.
    rewrite firstn_all in Hres, Harr. by subst.
  - assert (arr !! first = orig !! first) as Hread.
    { rewrite Harr, lookup_app_r by lia.
      rewrite lookup_drop. f_equal. lia. }
    destruct (orig !! first) as [x|] eqn:Hx.
    2:{ apply lookup_ge_None in Hx. lia. }
    rewrite Hread.
    pose proof (take_S_r _ _ _ Hx) as Htake.
    destruct (pred x) eqn:Hp.
    + apply IH; [lia|lia| |].
      * rewrite Htake, forward_list_remove_if_app.
        unfold forward_list_remove_if at 2. rewrite filter_cons_False by congruence.
        rewrite filter_nil, app_nil_r. done.
      * rewrite Htake, forward_list_remove_if_app.
        unfold forward_list_remove_if at 2. rewrite filter_cons_False by congruence.
        rewrite filter_nil, app_nil_r. done.
    + assert (forward_list_remove_if pred (take (S first) orig)
              = forward_list_remove_if pred (take first orig) ++ [x]) as Hstep.
      { rewrite Htake, forward_list_remove_if_app. f_equal.
        unfold forward_list_remove_if. by rewrite filter_cons_True. }
      apply IH; [lia|lia| |].
      * rewrite Hstep, length_app. simpl. lia.
      * rewrite Hstep, Harr.
        destruct (orig !! result) as [y|] eqn:Hy.
        2:{ apply lookup_ge_None in Hy. lia. }
        rewrite (drop_S _ _ _ Hy).
        rewrite insert_app_r_alt by lia.
        replace (result - length (forward_list_remove_if pred (take first orig)))
          with 0 by lia.
        simpl. by rewrite <- app_assoc.
Qed.

(** What [std::remove_if] leaves behind: the surviving elements in front,
    in order, then the old contents of the remaining positions; the
    returned iterator is just past the survivors. *)
Lemma std_remove_if_spec pred arr :
  std_remove_if pred arr
  = (forward_list_remove_if pred arr
       ++ drop (length (forward_list_remove_if pred arr)) arr,
     length (forward_list_remove_if pred arr)).
Proof.
  unfold std_remove_if. case_decide as Hend.
  - apply std_find_if_end in Hend as Hnone.
    rewrite (forward_list_remove_if_none _ _ Hnone), drop_all, app_nil_r.
    by rewrite Hend.
  - pose proof (std_find_if_le pred arr) as Hle.
    set (first := std_find_if pred arr) in *.
    assert (is_Some (arr !! first)) as [x Hx].
    { apply lookup_lt_is_Some. lia. }
    assert (pred x = true) as Hp.
    { clear Hend Hle. subst first. revert x Hx.
      induction arr as [|y arr IH]; simpl; intros x Hx; [done|].
      destruct (pred y) eqn:Hy; simpl in Hx; [by simplify_eq|]. by apply IH. }
    assert (forward_list_remove_if pred (take (S first) arr) = take first arr) as Hpre.
    { rewrite (take_S_r _ _ _ Hx), forward_list_remove_if_app.
      unfold forward_list_remove_if at 2. rewrite filter_cons_False by congruence.
      rewrite filter_nil, app_nil_r. apply std_find_if_prefix. }
    apply remove_if_loop_spec; [lia|lia| |].
    + rewrite Hpre, length_take. lia.
    + rewrite Hpre. by rewrite take_drop.
Qed.

Lemma list_erase_at_end pos l : length l ≤ pos → list_erase_at pos l = None.
Proof. intros. unfold list_erase_at. case_decide; [lia|done]. Qed.

Lemma list_erase_at_length pos l l' :
  list_erase_at pos l = Some l' → S (length l') = length l.
Proof.
  unfold list_erase_at. case_decide as Hlt; [|done]. intros [= <-].
  rewrite length_delete; [lia|]. by apply lookup_lt_is_Some.
Qed.

Lemma list_erase_at_middle (pre post : list A) x :
  list_erase_at (length pre) (pre ++ x :: post) = Some (pre ++ post).
Proof.
  unfold list_erase_at. rewrite length_app. simpl.
  case_decide; [|lia]. f_equal. clear.
  induction pre as [|y pre IH]; simpl; [done|]. by f_equal.
Qed.

Lemma delete_after_survivors (kept arr : list A) :
  delete (length kept) (kept ++ drop (length kept) arr)
  = kept ++ drop (S (length kept)) arr.
Proof.
  revert arr. induction kept as [|x kept IH]; intros arr; simpl.
  - rewrite drop_0. by destruct arr.
  - f_equal. destruct arr as [|y arr]; simpl.
    + specialize (IH []). by rewrite !drop_nil in IH.
    + apply IH.
Qed.
End std_facts.

Lemma delete_zip {A B} (k : nat) (l1 : list A) (l2 : list B) :
  delete k (zip l1 l2) = zip (delete k l1) (delete k l2).
Proof.
  revert k l2. induction l1 as [|x l1 IH]; intros k l2; [done|].
  destruct l2 as [|y l2].
  - simpl. by destruct k, l1.
  - destruct k as [|k]; simpl; [done|]. f_equal. apply IH.
Qed.

(** ** trackable *)

Lemma set_trackables_insert_id h o cbs :
  trackables h !! o = Some cbs → set_trackables <[o := cbs]> h = h.
Proof.
  destruct h as [ns ts k]. unfold set_trackables. simpl. intros Ho.
  by rewrite insert_id.
Qed.

Lemma untrack_lookup h o n h' :
  untrack o n h = Some h' →
  notifiers h' = notifiers h ∧ next_node h' = next_node h ∧
  ∀ o', trackables h' !! o'
        = (if decide (o' = o)
           then forward_list_remove_if (λ cb, bool_decide (cb_notifier cb = n))
           else id) <$> trackables h !! o'.
Proof.
  unfold untrack. destruct (trackables h !! o) as [cbs|] eqn:Ho; [|done].
  simpl. intros [= <-]. split_and!; [done..|]. intros o'. simpl.
  case_decide as Heq.
  - subst o'. by rewrite lookup_insert_eq, Ho.
  - rewrite lookup_insert_ne by done. by destruct (trackables h !! o').
Qed.

Lemma not_registered_survives n cbs :
  Forall (λ cb, cb_notifier cb ≠ n) cbs →
  forward_list_remove_if (λ cb, bool_decide (cb_notifier cb = n)) cbs = cbs.
Proof.
  intros H. apply forward_list_remove_if_none.
  eapply Forall_impl; [exact H|]. intros cb Hcb. by apply bool_decide_eq_false.
Qed.

Lemma untrack_leaves_none n cbs :
  Forall (λ cb, cb_notifier cb ≠ n)
    (forward_list_remove_if (λ cb, bool_decide (cb_notifier cb = n)) cbs).
Proof.
  eapply Forall_impl; [apply forward_list_remove_if_survivors|].
  intros cb Hcb. by apply bool_decide_eq_false in Hcb.
Qed.

(** C10. [untrack] on a live trackable object always completes; with a
    notifier that has no registration in the object's callbacks it changes
    nothing at all, and untracking the same notifier a second time changes
    nothing further. *)
Theorem untrack_unregistered_noop (h : heap) (o n : addr) (cbs : list callback) :
  trackables h !! o = Some cbs →
  (Forall (λ cb, cb_notifier cb ≠ n) cbs → untrack o n h = Some h) ∧
  (∃ h1, untrack o n h = Some h1 ∧ untrack o n h1 = Some h1).
Proof.
  intros Ho. split.
  - intros Hnone. unfold untrack. rewrite Ho. simpl.
    rewrite not_registered_survives by done.
    by rewrite set_trackables_insert_id.
  - unfold untrack at 1. rewrite Ho. simpl. eexists. split; [done|].
    unfold untrack. simpl. rewrite lookup_insert_eq. simpl.
    rewrite forward_list_remove_if_idemp. f_equal.
    unfold set_trackables. simpl. by rewrite insert_insert_eq.
Qed.

Lemma untrack_unregistered_noop_witness :
  let cb := Callback disconnect_trackable_thunk ex_notifier ex_object in
  let h := Heap {[ex_notifier := [(0, ex_A)]]} {[ex_object := [cb]]} 1 in
  (run ex_one_bound empty_heap = Some h ∧
   trackables h !! ex_object = Some [cb]) ∧
  (Forall (λ cb, cb_notifier cb ≠ ex_copy) [cb]
   → untrack ex_object ex_copy h = Some h) ∧
  (∃ h1, untrack ex_object ex_copy h = Some h1 ∧ untrack ex_object ex_copy h1 = Some h1).
Proof.
  intros cb h. split; [by split|].
  exact (untrack_unregistered_noop h ex_object ex_copy [cb] eq_refl).
Defined.

(** ** notifier: connecting and disconnecting *)

Lemma track_frame o n f h h' :
  track o n f h = Some h' →
  notifiers h' = notifiers h ∧ next_node h' = next_node h ∧
  ∃ cbs, trackables h !! o = Some cbs ∧
         trackables h' = <[o := Callback f n o :: cbs]> (trackables h).
Proof.
  unfold track. destruct (trackables h !! o) as [cbs|]; [|done]. simpl.
  intros [= <-]. eauto.
Qed.

(** [connect] puts the listener in a new node at the front and hands out a
    connection holding that node. *)
Lemma connect_push_front n lstnr h c h1 :
  connect n lstnr h = Some (c, h1) →
  ∃ ls, notifiers h !! n = Some ls ∧
        c = Connection (Some n) (next_node h) ∧
        notifiers h1 = <[n := (next_node h, lstnr) :: ls]> (notifiers h) ∧
        next_node h1 = S (next_node h).
Proof.
  unfold connect. intros H.
  destruct (is_trackable lstnr).
  - destruct (track _ _ _ h) as [h0|] eqn:Ht; [|done].
    apply track_frame in Ht as (Hn & Hk & _). simpl in H.
    rewrite Hn, Hk in H.
    destruct (notifiers h !! n) as [ls|]; [|done]. simpl in H.
    injection H as <- <-. eauto.
  - simpl in H. destruct (notifiers h !! n) as [ls|]; [|done]. simpl in H.
    injection H as <- <-. eauto.
Qed.

Lemma iterator_position_found it (lstnr : listener) (pre post : list node) :
  it ∉ pre.*1 →
  iterator_position it (pre ++ (it, lstnr) :: post) = length pre.
Proof.
  unfold iterator_position. induction pre as [|[i l] pre IH]; simpl; intros Hnotin.
  - by rewrite bool_decide_eq_true_2.
  - rewrite not_elem_of_cons in Hnotin. destruct Hnotin as [Hne Hpre].
    rewrite bool_decide_eq_false_2 by done. f_equal. by apply IH.
Qed.

Lemma disconnect_iterator_frame n it h h' :
  disconnect_iterator n it h = Some h' →
  trackables h' = trackables h ∧ next_node h' = next_node h ∧
  ∀ m, m ≠ n → notifiers h' !! m = notifiers h !! m.
Proof.
  unfold disconnect_iterator.
  destruct (notifiers h !! n) as [ls|]; [|done]. simpl.
  destruct (list_erase_at _ ls) as [ls'|]; [|done]. simpl.
  intros [= <-]. split_and!; [done..|]. intros m Hm. simpl.
  by rewrite lookup_insert_ne.
Qed.

(** C5. Once a call of [connection::disconnect()] has returned, the
    connection is spent ([m_notifier] is null) and calling it again, any
    number of times, changes neither the connection nor any notifier's
    listener list. *)
Theorem connection_disconnect_again_noop (c c1 : connection) (h h1 : heap) :
  connection_disconnect c h = Some (c1, h1) →
  m_notifier c1 = None ∧
  connection_disconnect c1 h1 = Some (c1, h1) ∧
  ∀ k, disconnect_times k c1 h1 = Some (c1, h1).
Proof.
  intros Hfirst.
  assert (m_notifier c1 = None) as Hspent.
  { unfold connection_disconnect in Hfirst.
    destruct (m_notifier c) as [n|] eqn:Hc.
    - destruct (disconnect_iterator n _ h); [|done]. by injection Hfirst as <- <-.
    - by injection Hfirst as <- <-. }
  assert (connection_disconnect c1 h1 = Some (c1, h1)) as Hagain.
  { unfold connection_disconnect. by rewrite Hspent. }
  split_and!; [done..|].
  induction k as [|k IH]; simpl; [done|]. by rewrite Hagain.
Qed.

Lemma connection_disconnect_again_noop_witness :
  let cb := Callback disconnect_trackable_thunk ex_notifier ex_object in
  let h := Heap {[ex_notifier := [(1, ex_B); (0, ex_A)]]} {[ex_object := [cb; cb]]} 2 in
  let c := Connection (Some ex_notifier) 0 in
  let c1 := Connection None 0 in
  let h1 := Heap {[ex_notifier := [(1, ex_B)]]} {[ex_object := [cb; cb]]} 2 in
  (run ex_two_bound empty_heap = Some h ∧
   connection_disconnect c h = Some (c1, h1)) ∧
  m_notifier c1 = None ∧
  connection_disconnect c1 h1 = Some (c1, h1) ∧
  ∀ k, disconnect_times k c1 h1 = Some (c1, h1).
Proof.
  intros cb h c c1 h1.
  assert (connection_disconnect c h = Some (c1, h1)) as Hfirst by reflexivity.
  split; [by split|].
  exact (connection_disconnect_again_noop c c1 h h1 Hfirst).
Defined.

(** C8. [disconnect_all] on a live notifier empties its listener list and
    touches nothing else: every trackable object keeps exactly the
    callbacks it had, so an object that held a registration for this
    notifier still holds it. *)
Theorem disconnect_all_keeps_registrations (h : heap) (n : addr) (ls : list node) :
  notifiers h !! n = Some ls →
  ∃ h', disconnect_all n h = Some h' ∧
        notifiers h' !! n = Some [] ∧
        (∀ m, m ≠ n → notifiers h' !! m = notifiers h !! m) ∧
        trackables h' = trackables h ∧
        ∀ o cbs cb, trackables h !! o = Some cbs → cb ∈ cbs → cb_notifier cb = n →
          ∃ cbs', trackables h' !! o = Some cbs' ∧ cb ∈ cbs'.
Proof.
  intros Hn. unfold disconnect_all. rewrite Hn. simpl.
  eexists. split; [done|]. simpl. split_and!.
  - by rewrite lookup_insert_eq.
  - intros m Hm. by rewrite lookup_insert_ne.
  - done.
  - intros o cbs cb Ho Hcb _. eauto.
Qed.

Lemma disconnect_all_keeps_registrations_witness :
  let cb := Callback disconnect_trackable_thunk ex_notifier ex_object in
  let h := Heap {[ex_notifier := [(0, ex_A)]]} {[ex_object := [cb]]} 1 in
  run ex_one_bound empty_heap = Some h ∧
  ∃ h', disconnect_all ex_notifier h = Some h' ∧
        notifiers h' !! ex_notifier = Some [] ∧
        (∀ m, m ≠ ex_notifier → notifiers h' !! m = notifiers h !! m) ∧
        trackables h' = trackables h ∧
        ∀ o cbs cb, trackables h !! o = Some cbs → cb ∈ cbs → cb_notifier cb = ex_notifier →
          ∃ cbs', trackables h' !! o = Some cbs' ∧ cb ∈ cbs'.
Proof.
  intros cb h. split; [reflexivity|].
  apply (disconnect_all_keeps_registrations h ex_notifier [(0, ex_A)]).
  reflexivity.
Defined.




(** ** notifier: disconnecting an object *)

Lemma disconnect_object_frame n obj h h' :
  disconnect_object n obj h = Some h' →
  trackables h' = trackables h ∧ next_node h' = next_node h ∧
  ∀ m, m ≠ n → notifiers h' !! m = notifiers h !! m.
Proof.
  unfold disconnect_object.
  destruct (notifiers h !! n) as [ls|]; [|done]. simpl.
  destruct (list_erase_at _ _) as [ls'|]; [|done]. simpl.
  intros [= <-]. split_and!; [done..|]. intros m Hm. simpl.
  by rewrite lookup_insert_ne.
Qed.

Lemma remove_if_keeps_length {A} (pred : A → bool) (arr : list A) :
  length (std_remove_if pred arr).1 = length arr.
Proof.
  rewrite std_remove_if_spec. simpl.
  pose proof (forward_list_remove_if_length pred arr).
  rewrite length_app, length_drop. lia.
Qed.

(** What [disconnect(obj)] does to a live notifier.  With [kept] the
    listeners not bound to [obj]: when some listener is bound to [obj], the
    node just past the first [length kept] nodes is unlinked; the nodes in
    front of it now hold [kept], the nodes behind it hold what they held;
    when no listener is bound to [obj], [end()] is erased. *)
Lemma disconnect_object_spec n obj h (ls : list node) :
  notifiers h !! n = Some ls →
  let kept :=
    forward_list_remove_if (λ l, bool_decide (get_object l = obj)) (ls.*2) in
  disconnect_object n obj h
  = if decide (length kept < length ls)
    then Some (set_notifiers
                 <[n := zip (delete (length kept) (ls.*1))
                            (kept ++ drop (S (length kept)) (ls.*2))]> h)
    else None.
Proof.
  intros Hn kept. unfold disconnect_object. rewrite Hn. simpl.
  rewrite std_remove_if_spec. simpl. fold kept.
  unfold list_erase_at.
  assert (length (zip (ls.*1) (kept ++ drop (length kept) (ls.*2))) = length ls) as ->.
  { pose proof (forward_list_remove_if_length
                  (λ l, bool_decide (get_object l = obj)) (ls.*2)) as Hle.
    fold kept in Hle. rewrite length_fmap in Hle.
    rewrite length_zip_with, length_app, length_drop, !length_fmap. lia. }
  case_decide; [|done]. simpl.
  by rewrite delete_zip, delete_after_survivors.
Qed.

(** With exactly one listener bound to [obj], the listeners left are the
    others, in order. *)
Lemma disconnect_object_single n obj h (ls : list node) :
  notifiers h !! n = Some ls →
  S (length (forward_list_remove_if
               (λ l, bool_decide (get_object l = obj)) (ls.*2))) = length ls →
  ∃ h' ls', disconnect_object n obj h = Some h' ∧
            notifiers h' !! n = Some ls' ∧
            ls'.*2 = forward_list_remove_if
                       (λ l, bool_decide (get_object l = obj)) (ls.*2).
Proof.
  intros Hn Hone. rewrite (disconnect_object_spec n obj h ls Hn). simpl.
  rewrite decide_True by lia. eexists _, _. split; [done|]. simpl.
  split; [by rewrite lookup_insert_eq|].
  rewrite drop_ge, app_nil_r by (rewrite length_fmap; lia).
  apply snd_zip. rewrite length_delete, length_fmap.
  - lia.
  - apply lookup_lt_is_Some. rewrite length_fmap. lia.
Qed.

(** Whatever the number of listeners bound to [obj], a call of
    [disconnect(obj)] that returns has unlinked exactly one node. *)
Lemma disconnect_object_erases_one n obj h h' :
  disconnect_object n obj h = Some h' →
  ∃ ls ls', notifiers h !! n = Some ls ∧ notifiers h' !! n = Some ls' ∧
            S (length ls') = length ls.
Proof.
  unfold disconnect_object.
  destruct (notifiers h !! n) as [ls|]; [|done]. simpl.
  destruct (list_erase_at _ _) as [ls'|] eqn:He; [|done]. simpl.
  intros [= <-]. exists ls, ls'. split_and!; [done| |].
  - simpl. by rewrite lookup_insert_eq.
  - apply list_erase_at_length in He. rewrite He.
    rewrite length_zip_with, !length_fmap, remove_if_keeps_length, length_fmap. lia.
Qed.

(** C1, on the code. With two listeners bound to one object, [B] then
    [A], [disconnect(obj)] unlinks the first node only: the listener count
    drops by one and [A], bound to the object, stays connected. *)
Theorem disconnect_object_keeps_bound_listener :
  ∃ h h',
    run ex_two_bound empty_heap = Some h ∧
    notifiers h !! ex_notifier = Some [(1, ex_B); (0, ex_A)] ∧
    get_object ex_A = ex_object ∧ get_object ex_B = ex_object ∧
    disconnect_object ex_notifier ex_object h = Some h' ∧
    notifiers h' !! ex_notifier = Some [(0, ex_A)].
Proof.
  set (cb := Callback disconnect_trackable_thunk ex_notifier ex_object).
  exists (Heap {[ex_notifier := [(1, ex_B); (0, ex_A)]]} {[ex_object := [cb; cb]]} 2),
    (Heap {[ex_notifier := [(0, ex_A)]]} {[ex_object := [cb; cb]]} 2).
  by split_and!.
Qed.

(** With a free function connected first, then two methods of a trackable
    object, destroying the object is undefined: the first callback leaves
    the free function in the list twice and nothing bound to the object,
    and the second callback erases [end()]. *)
Lemma trackable_dtor_two_bound_then_free :
  ∃ h h',
    run ex_two_bound_then_free empty_heap = Some h ∧
    notifiers h !! ex_notifier = Some [(2, ex_A); (1, ex_B); (0, ex_X)] ∧
    disconnect_object ex_notifier ex_object h = Some h' ∧
    notifiers h' !! ex_notifier = Some [(2, ex_X); (0, ex_X)] ∧
    trackable_dtor ex_object h = None.
Proof.
  set (cb := Callback disconnect_trackable_thunk ex_notifier ex_object).
  exists (Heap {[ex_notifier := [(2, ex_A); (1, ex_B); (0, ex_X)]]}
            {[ex_object := [cb; cb]]} 3),
    (Heap {[ex_notifier := [(2, ex_X); (0, ex_X)]]} {[ex_object := [cb; cb]]} 3).
  by split_and!.
Qed.

(** C6, on the code. When no listener of a live notifier is bound to
    [obj], [std::remove_if] returns [end()] and [disconnect(obj)] erases
    it: the call is undefined, not a no-op. *)
Theorem disconnect_object_unbound_undefined
    (h : heap) (n obj : addr) (ls : list node) :
  notifiers h !! n = Some ls →
  Forall (λ nd : node, get_object nd.2 ≠ obj) ls →
  disconnect_object n obj h = None.
Proof.
  intros Hn Hnone. unfold disconnect_object. rewrite Hn. simpl.
  rewrite std_remove_if_spec. simpl.
  rewrite forward_list_remove_if_none.
  2:{ apply Forall_fmap. eapply Forall_impl; [exact Hnone|].
      intros nd Hnd. simpl. by apply bool_decide_eq_false. }
  rewrite list_erase_at_end; [done|].
  rewrite length_zip_with, length_app, length_drop, !length_fmap. lia.
Qed.

Lemma disconnect_object_unbound_undefined_witness :
  let h := Heap {[ex_notifier := [(0, ex_X)]]} {[ex_object := []]} 1 in
  (run ex_free_only empty_heap = Some h ∧
   notifiers h !! ex_notifier = Some [(0, ex_X)] ∧
   Forall (λ nd : node, get_object nd.2 ≠ ex_object) [(0, ex_X)]) ∧
  disconnect_object ex_notifier ex_object h = None.
Proof.
  intros h.
  assert (Forall (λ nd : node, get_object nd.2 ≠ ex_object) [(0, ex_X)]) as Hnone.
  { repeat constructor. simpl. discriminate. }
  split; [by split_and!|].
  exact (disconnect_object_unbound_undefined h ex_notifier ex_object [(0, ex_X)]
           eq_refl Hnone).
Defined.

(** ** notifier: destruction *)

Lemma tracked_objects_cons (nd : node) (ls : list node) :
  tracked_objects (nd :: ls)
  = if is_trackable nd.2 then get_object nd.2 :: tracked_objects ls
    else tracked_objects ls.
Proof.
  unfold tracked_objects. simpl. rewrite filter_cons.
  destruct (is_trackable nd.2); by case_decide.
Qed.

Lemma tracked_objects_elem (nd : node) (ls : list node) :
  nd ∈ ls → is_trackable nd.2 = true → get_object nd.2 ∈ tracked_objects ls.
Proof.
  intros Hin Htr. unfold tracked_objects.
  apply list_elem_of_fmap. exists nd.2. split; [done|].
  apply list_elem_of_filter. split; [done|].
  apply list_elem_of_fmap. by exists nd.
Qed.

(** The loop of the destructor: every object of a trackable listener is
    untracked, every other object is left alone. *)
Lemma for_each_untrack_listener n (ls : list node) h :
  Forall (λ nd : node,
    is_trackable nd.2 = true → is_Some (trackables h !! get_object nd.2)) ls →
  ∃ h', for_each (untrack_listener n) ls h = Some h' ∧
        notifiers h' = notifiers h ∧ next_node h' = next_node h ∧
        ∀ o, trackables h' !! o
             = (if decide (o ∈ tracked_objects ls)
                then forward_list_remove_if (λ cb, bool_decide (cb_notifier cb = n))
                else id) <$> trackables h !! o.
Proof.
  revert h. induction ls as [|nd ls IH]; intros h Hlive.
  - exists h. split_and!; [done..|]. intros o.
    case_decide as Hin; [by apply not_elem_of_nil in Hin|].
    by destruct (trackables h !! o).
  - apply Forall_cons in Hlive as [Hnd Hls].
    rewrite tracked_objects_cons.
    change (for_each (untrack_listener n) (nd :: ls) h)
      with (untrack_listener n nd h ≫= for_each (untrack_listener n) ls).
    assert (untrack_listener n nd h
            = if is_trackable nd.2 then untrack (get_object nd.2) n h else Some h)
      as -> by done.
    destruct (is_trackable nd.2) eqn:Htr.
    + destruct (Hnd eq_refl) as [cbs Hcbs].
      destruct (untrack (get_object nd.2) n h) as [h1|] eqn:Hun.
      2:{ unfold untrack in Hun. by rewrite Hcbs in Hun. }
      apply untrack_lookup in Hun as (Hn1 & Hk1 & Ht1).
      destruct (IH h1) as (h' & Hrun & Hn' & Hk' & Ht').
      { eapply Forall_impl; [exact Hls|]. intros nd' Hnd' Htr'.
        rewrite Ht1. apply fmap_is_Some. by apply Hnd'. }
      exists h'. split_and!; [exact Hrun|congruence|congruence|].
      intros o. rewrite Ht', Ht1.
      destruct (trackables h !! o) as [cbs0|]; simpl; [|done]. f_equal.
      pose proof (elem_of_cons (tracked_objects ls) o (get_object nd.2)) as Hcons.
      repeat case_decide; simpl;
        first [done | by rewrite forward_list_remove_if_idemp | exfalso; tauto].
    + simpl. apply IH. done.
Qed.

(** C4, as the code has it. Destroying a notifier whose trackable
    listeners are bound to live objects completes; it calls
    [untrack(this)] on the object of every trackable listener still in the
    list, so that none of those objects keeps a registration for the
    destroyed notifier.  The callbacks of every other object are left as
    they were, registrations for the destroyed notifier included. *)
Theorem notifier_dtor_untracks_remaining (h : heap) (n : addr) (ls : list node) :
  notifiers h !! n = Some ls →
  Forall (λ nd : node,
    is_trackable nd.2 = true → is_Some (trackables h !! get_object nd.2)) ls →
  ∃ h', notifier_dtor n h = Some h' ∧
        notifiers h' = delete n (notifiers h) ∧
        (∀ nd : node, nd ∈ ls → is_trackable nd.2 = true →
           ∃ cbs, trackables h !! get_object nd.2 = Some cbs ∧
                  trackables h' !! get_object nd.2
                  = Some (forward_list_remove_if
                            (λ cb, bool_decide (cb_notifier cb = n)) cbs) ∧
                  Forall (λ cb, cb_notifier cb ≠ n)
                    (forward_list_remove_if
                       (λ cb, bool_decide (cb_notifier cb = n)) cbs)) ∧
        (∀ o, o ∉ tracked_objects ls → trackables h' !! o = trackables h !! o).
Proof.
  intros Hn Hlive.
  destruct (for_each_untrack_listener n ls h Hlive) as (h1 & Hrun & Hn1 & Hk1 & Ht1).
  unfold notifier_dtor. rewrite Hn. simpl. rewrite Hrun. simpl.
  eexists. split; [done|]. simpl. split_and!.
  - by rewrite Hn1.
  - intros nd Hin Htr.
    rewrite Forall_forall in Hlive. destruct (Hlive nd Hin Htr) as [cbs Hcbs].
    exists cbs. split_and!; [done| |apply untrack_leaves_none].
    rewrite Ht1, Hcbs. simpl.
    by rewrite decide_True by (by apply tracked_objects_elem).
  - intros o Ho. rewrite Ht1, decide_False by done.
    by destruct (trackables h !! o).
Qed.

Lemma notifier_dtor_untracks_remaining_witness :
  let cb m := Callback disconnect_trackable_thunk m ex_object in
  let h := Heap {[ex_notifier := [(1, ex_A); (0, ex_X)]; ex_copy := [(2, ex_B)]]}
             {[ex_object := [cb ex_copy; cb ex_notifier]]} 3 in
  let ls : list node := [(1, ex_A); (0, ex_X)] in
  (run ex_two_notifiers empty_heap = Some h ∧
   notifiers h !! ex_notifier = Some ls ∧
   Forall (λ nd : node,
     is_trackable nd.2 = true → is_Some (trackables h !! get_object nd.2)) ls) ∧
  ∃ h', notifier_dtor ex_notifier h = Some h' ∧
        notifiers h' = delete ex_notifier (notifiers h) ∧
        (∀ nd : node, nd ∈ ls → is_trackable nd.2 = true →
           ∃ cbs, trackables h !! get_object nd.2 = Some cbs ∧
                  trackables h' !! get_object nd.2
                  = Some (forward_list_remove_if
                            (λ cb, bool_decide (cb_notifier cb = ex_notifier)) cbs) ∧
                  Forall (λ cb, cb_notifier cb ≠ ex_notifier)
                    (forward_list_remove_if
                       (λ cb, bool_decide (cb_notifier cb = ex_notifier)) cbs)) ∧
        (∀ o, o ∉ tracked_objects ls → trackables h' !! o = trackables h !! o).
Proof.
  intros cb h ls.
  assert (Forall (λ nd : node,
     is_trackable nd.2 = true → is_Some (trackables h !! get_object nd.2)) ls) as Hlive.
  { repeat constructor; simpl; intros; [by eexists|done]. }
  split; [by split_and!|].
  exact (notifier_dtor_untracks_remaining h ex_notifier ls eq_refl Hlive).
Defined.

(** C4 fails as stated: [connect] a method of a trackable object,
    [disconnect_all], then destroy the notifier.  No listener is left to
    untrack, so the object keeps its registration for the destroyed
    notifier, and destroying the object afterwards calls into it. *)
Lemma notifier_dtor_leaves_stale_registration :
  ∃ h h',
    run (ex_one_bound ++ [disconnect_all ex_notifier]) empty_heap = Some h ∧
    notifier_dtor ex_notifier h = Some h' ∧
    notifiers h' !! ex_notifier = None ∧
    trackables h' !! ex_object
    = Some [Callback disconnect_trackable_thunk ex_notifier ex_object] ∧
    trackable_dtor ex_object h' = None.
Proof.
  set (cb := Callback disconnect_trackable_thunk ex_notifier ex_object).
  exists (Heap {[ex_notifier := []]} {[ex_object := [cb]]} 1),
    (Heap ∅ {[ex_object := [cb]]} 1).
  by split_and!.
Qed.

(** ** notifier: copies *)

Lemma copy_nodes_listeners start (ls : list node) : (copy_nodes start ls).*2 = ls.*2.
Proof.
  unfold copy_nodes. apply snd_zip. rewrite length_seq, length_fmap. lia.
Qed.

(** The callbacks run by [~trackable()] reach the notifiers they name and
    no other. *)
Lemma for_each_callback_frame (cbs : list callback) h h' :
  for_each callback_call cbs h = Some h' →
  trackables h' = trackables h ∧
  ∀ m, Forall (λ cb, cb_notifier cb ≠ m) cbs → notifiers h' !! m = notifiers h !! m.
Proof.
  revert h. induction cbs as [|cb cbs IH]; intros h; simpl.
  - intros [= <-]. done.
  - destruct (callback_call cb h) as [h1|] eqn:Hcall; [|done]. simpl.
    intros Hrest. apply IH in Hrest as [Ht Hn].
    unfold callback_call, disconnect_trackable in Hcall.
    destruct (cb_function cb).
    apply disconnect_object_frame in Hcall as (Ht1 & _ & Hn1).
    split; [congruence|]. intros m Hm. apply Forall_cons in Hm as [Hcb Hm].
    rewrite (Hn m Hm). apply Hn1. done.
Qed.

Lemma assign_nodes_listeners start (old ls : list node) :
  (assign_nodes start old ls).*2 = ls.*2.
Proof.
  unfold assign_nodes. apply snd_zip.
  rewrite length_app, length_seq, !length_fmap. lia.
Qed.

(** C9, as the code has it. Copy-constructing or copy-assigning a
    notifier gives the copy the listeners of the original, in order, and
    calls [track] on nothing: the callbacks of every trackable object are
    unchanged.  Destroying a trackable object afterwards removes listeners
    only from the notifiers its callbacks name: any notifier the object
    holds no registration for, the copy as well, keeps its listener list
    exactly as it was. *)
Theorem notifier_copy_registers_nothing (h h1 : heap) (n n' : addr) :
  notifier_copy_ctor n' n h = Some h1 ∨ notifier_copy_assign n' n h = Some h1 →
  trackables h1 = trackables h ∧
  (∃ ls ls', notifiers h !! n = Some ls ∧ notifiers h1 !! n' = Some ls' ∧
             ls'.*2 = ls.*2) ∧
  ∀ m o cbs h2,
    trackables h1 !! o = Some cbs →
    Forall (λ cb, cb_notifier cb ≠ m) cbs →
    trackable_dtor o h1 = Some h2 →
    notifiers h2 !! m = notifiers h1 !! m.
Proof.
  intros Hcopy.
  assert (trackables h1 = trackables h ∧
          ∃ ls ls', notifiers h !! n = Some ls ∧ notifiers h1 !! n' = Some ls' ∧
                    ls'.*2 = ls.*2) as [Ht Hls].
  { destruct Hcopy as [Hc|Hc].
    - unfold notifier_copy_ctor in Hc.
      destruct (notifiers h !! n) as [ls|] eqn:Hn; [|done]. simpl in Hc.
      destruct (notifiers h !! n'); [done|]. injection Hc as <-.
      split; [done|]. exists ls, (copy_nodes (next_node h) ls). simpl.
      split_and!; [done|by rewrite lookup_insert_eq|apply copy_nodes_listeners].
    - unfold notifier_copy_assign in Hc.
      destruct (notifiers h !! n) as [ls|] eqn:Hn; [|done]. simpl in Hc.
      destruct (notifiers h !! n') as [ls0|] eqn:Hn'; [|done]. simpl in Hc.
      case_decide as Heq; injection Hc as <-.
      + subst n'. split; [done|]. by exists ls, ls.
      + split; [done|]. exists ls, (assign_nodes (next_node h) ls0 ls). simpl.
        split_and!; [done|by rewrite lookup_insert_eq|apply assign_nodes_listeners]. }
  split_and!; [done..|].
  intros m o cbs h2 Ho Hnone Hdtor. unfold trackable_dtor in Hdtor.
  rewrite Ho in Hdtor. simpl in Hdtor.
  destruct (for_each callback_call cbs h1) as [h'|] eqn:Hrun; [|done].
  injection Hdtor as <-. simpl.
  apply for_each_callback_frame in Hrun as [_ Hn]. by apply Hn.
Qed.

Lemma notifier_copy_registers_nothing_witness :
  let cb := Callback disconnect_trackable_thunk ex_notifier ex_object in
  let h := Heap {[ex_notifier := [(0, ex_A)]]} {[ex_object := [cb]]} 1 in
  let h1 := Heap {[ex_notifier := [(0, ex_A)]; ex_copy := [(1, ex_A)]]}
              {[ex_object := [cb]]} 2 in
  let h2 := Heap {[ex_notifier := []; ex_copy := [(1, ex_A)]]} ∅ 2 in
  let k := Heap {[ex_notifier := [(0, ex_A)]; ex_copy := []]} {[ex_object := [cb]]} 1 in
  ((run ex_one_bound empty_heap = Some h ∧
    notifier_copy_ctor ex_copy ex_notifier h = Some h1 ∧
    trackables h1 !! ex_object = Some [cb] ∧
    Forall (λ cb, cb_notifier cb ≠ ex_copy) [cb] ∧
    trackable_dtor ex_object h1 = Some h2) ∧
   trackables h1 = trackables h ∧
   notifiers h2 !! ex_copy = notifiers h1 !! ex_copy) ∧
  ((run ex_idle_second empty_heap = Some k ∧
    notifier_copy_assign ex_copy ex_notifier k = Some h1 ∧
    trackables h1 !! ex_object = Some [cb] ∧
    Forall (λ cb, cb_notifier cb ≠ ex_copy) [cb] ∧
    trackable_dtor ex_object h1 = Some h2) ∧
   trackables h1 = trackables k ∧
   notifiers h2 !! ex_copy = notifiers h1 !! ex_copy).
Proof.
  intros cb h h1 h2 k.
  assert (notifier_copy_ctor ex_copy ex_notifier h = Some h1) as Hcopy by reflexivity.
  assert (notifier_copy_assign ex_copy ex_notifier k = Some h1) as Hassign
    by reflexivity.
  assert (Forall (λ cb, cb_notifier cb ≠ ex_copy) [cb]) as Hnone.
  { repeat constructor. simpl. discriminate. }
  assert (trackable_dtor ex_object h1 = Some h2) as Hdtor by reflexivity.
  split.
  - split; [by split_and!|].
    destruct (notifier_copy_registers_nothing h h1 ex_notifier ex_copy (or_introl Hcopy))
      as (Ht & _ & Hframe).
    split; [exact Ht|].
    exact (Hframe ex_copy ex_object [cb] h2 eq_refl Hnone Hdtor).
  - split; [by split_and!|].
    destruct (notifier_copy_registers_nothing k h1 ex_notifier ex_copy
                (or_intror Hassign)) as (Ht & _ & Hframe).
    split; [exact Ht|].
    exact (Hframe ex_copy ex_object [cb] h2 eq_refl Hnone Hdtor).
Defined.

(** C9 fails as stated: [N] holds a method of a trackable object and a
    free function, [M] has connected another method of the object, and
    [M = N].  The assignment registers nothing, but the object still holds
    the registration [M] made for itself: destroying the object calls
    [disconnect] on [M] too, and [M] loses the method listener it had just
    been given by the copy. *)
Lemma notifier_copy_assign_then_object_dies :
  ∃ h h1 h2,
    run ex_two_notifiers empty_heap = Some h ∧
    notifiers h !! ex_notifier = Some [(1, ex_A); (0, ex_X)] ∧
    notifiers h !! ex_copy = Some [(2, ex_B)] ∧
    notifier_copy_assign ex_copy ex_notifier h = Some h1 ∧
    trackables h1 = trackables h ∧
    notifiers h1 !! ex_copy = Some [(2, ex_A); (3, ex_X)] ∧
    trackable_dtor ex_object h1 = Some h2 ∧
    notifiers h2 !! ex_copy = Some [(2, ex_X)].
Proof.
  set (cb m := Callback disconnect_trackable_thunk m ex_object).
  exists (Heap {[ex_notifier := [(1, ex_A); (0, ex_X)]; ex_copy := [(2, ex_B)]]}
            {[ex_object := [cb ex_copy; cb ex_notifier]]} 3),
    (Heap {[ex_notifier := [(1, ex_A); (0, ex_X)]; ex_copy := [(2, ex_A); (3, ex_X)]]}
       {[ex_object := [cb ex_copy; cb ex_notifier]]} 4),
    (Heap {[ex_notifier := [(1, ex_X)]; ex_copy := [(2, ex_X)]]} ∅ 4).
  by split_and!.
Qed.

(** ** notifier: broadcasting *)

Lemma connect_all_listeners n (cs : list listener) h h' (ls : list node) :
  notifiers h !! n = Some ls →
  connect_all n cs h = Some h' →
  ∃ ls', notifiers h' !! n = Some ls' ∧ ls'.*2 = reverse cs ++ ls.*2.
Proof.
  unfold connect_all. revert h ls. induction cs as [|l cs IH]; intros h ls Hn.
  - intros [= <-]. by exists ls.
  - change (for_each (connect_ n) (l :: cs) h)
      with (connect_ n l h ≫= for_each (connect_ n) cs).
    destruct (connect_ n l h) as [h1|] eqn:Hc_; [|done]. simpl.
    unfold connect_ in Hc_.
    destruct (connect n l h) as [[c h1']|] eqn:Hc; [|done].
    injection Hc_ as ->.
    apply connect_push_front in Hc as (ls0 & Hls0 & _ & Hn1 & _).
    rewrite Hn in Hls0. injection Hls0 as <-.
    intros Hrest.
    destruct (IH h1 ((next_node h, l) :: ls)) as (ls' & Hls' & Hvals); [|done|].
    { by rewrite Hn1, lookup_insert_eq. }
    exists ls'. split; [done|]. rewrite Hvals, reverse_cons. simpl. by rewrite <- app_assoc.
Qed.

Section broadcast_facts.
Context {Params W E : Type}.
Context (call_function : N → Params → W → outcome W E).
Context (call_method : N → addr → Params → W → outcome W E).

Implicit Types (ls : list listener) (params : Params) (w : W).

Lemma call_each_app_returned (ls1 ls2 : list listener) params w w1 :
  (call_each call_function call_method ls1 params w).2 = Returned w1 →
  call_each call_function call_method (ls1 ++ ls2) params w
  = (((λ l, (l, params)) <$> ls1)
       ++ (call_each call_function call_method ls2 params w1).1,
     (call_each call_function call_method ls2 params w1).2).
Proof.
  revert w. induction ls1 as [|l ls1 IH]; intros w; simpl.
  - intros [= <-]. by destruct (call_each call_function call_method ls2 params w).
  - destruct (listener_call call_function call_method l params w) as [w'|e w'];
      simpl; [|done].
    intros Hrest. by rewrite (IH w' Hrest).
Qed.

(** When every call returns, the loop calls each listener of the list once,
    front to back, with the broadcast's arguments. *)
Lemma call_each_all_return (ls : list listener) params w :
  (∀ l w', l ∈ ls →
     ∃ w'', listener_call call_function call_method l params w' = Returned w'') →
  ∃ w', call_each call_function call_method ls params w
        = ((λ l, (l, params)) <$> ls, Returned w').
Proof.
  revert w. induction ls as [|l ls IH]; intros w Hret; simpl.
  - by exists w.
  - destruct (Hret l w) as [w1 Hw1]; [by left|]. rewrite Hw1.
    destruct (IH w1) as [w' Hw']; [intros; apply Hret; by right|].
    exists w'. by rewrite Hw'.
Qed.

(** The calls made are always an initial part of the list, and all of it
    when the loop runs to its end. *)
Lemma call_each_calls (ls : list listener) params w :
  (call_each call_function call_method ls params w).1
    `prefix_of` ((λ l, (l, params)) <$> ls) ∧
  ∀ w', (call_each call_function call_method ls params w).2 = Returned w' →
        (call_each call_function call_method ls params w).1
        = (λ l, (l, params)) <$> ls.
Proof.
  revert w. induction ls as [|l ls IH]; intros w; simpl.
  - split; [done|]. done.
  - destruct (listener_call call_function call_method l params w) as [w1|e w1]; simpl.
    + destruct (IH w1) as [Hpre Hall]. split.
      * by apply prefix_cons.
      * intros w' Hw'. f_equal. by apply (Hall w').
    + split; [|done]. apply prefix_cons, prefix_nil.
Qed.

(** C2. On a notifier with no listeners, after the listeners [cs] have
    been connected one after the other with nothing in between, the calls
    a broadcast makes are calls of the connected listeners with the
    broadcast's arguments, one per connection at most and the listener
    connected last first.  A broadcast that returns has called every
    connected listener exactly once, in that order; and the broadcast
    returns when the calls of the listeners do. *)
Theorem broadcast_reverse_connection_order
    (n : addr) (cs : list listener) (h0 h : heap) (params : Params) (w : W) :
  notifiers h0 !! n = Some [] →
  connect_all n cs h0 = Some h →
  ∃ calls out,
    broadcast call_function call_method n params h w = Some (calls, out) ∧
    calls `prefix_of` ((λ l, (l, params)) <$> reverse cs) ∧
    (∀ w', out = Returned w' → calls = (λ l, (l, params)) <$> reverse cs) ∧
    ((∀ l w', l ∈ cs →
        ∃ w'', listener_call call_function call_method l params w' = Returned w'') →
     ∃ w', out = Returned w').
Proof.
  intros Hn0 Hconn.
  destruct (connect_all_listeners n cs h0 h [] Hn0 Hconn) as (ls' & Hls' & Hvals).
  simpl in Hvals. rewrite app_nil_r in Hvals.
  unfold broadcast. rewrite Hls'. simpl. rewrite Hvals.
  destruct (call_each_calls (reverse cs) params w) as [Hpre Hall].
  destruct (call_each call_function call_method (reverse cs) params w)
    as [calls out] eqn:Hrun.
  exists calls, out. simpl in *. split_and!; [done..|].
  intros Hret.
  destruct (call_each_all_return (reverse cs) params w) as [w' Hw'].
  { intros l w1 Hl. apply Hret. by apply elem_of_reverse. }
  exists w'. rewrite Hrun in Hw'. by injection Hw'.
Qed.

(** C7. When the listeners in front of some node all return and the
    listener of that node throws, the broadcast ends with that exception:
    the calls made are those of the listeners in front and the failing
    one, and no listener behind it is called. *)
Theorem broadcast_stops_at_throw
    (n : addr) (h : heap) (pre post : list node) (nd : node)
    (params : Params) (w w1 w2 : W) (e : E) :
  notifiers h !! n = Some (pre ++ nd :: post) →
  (call_each call_function call_method (pre.*2) params w).2 = Returned w1 →
  listener_call call_function call_method nd.2 params w1 = Thrown e w2 →
  broadcast call_function call_method n params h w
  = Some ((λ l, (l, params)) <$> (pre.*2 ++ [nd.2]), Thrown e w2).
Proof.
  intros Hn Hpre Hthrow.
  unfold broadcast. rewrite Hn. simpl.
  rewrite fmap_app, fmap_cons.
  rewrite (call_each_app_returned _ _ _ _ _ Hpre). simpl.
  rewrite Hthrow. simpl. by rewrite fmap_app.
Qed.
End broadcast_facts.

Lemma broadcast_reverse_connection_order_witness :
  let h0 := Heap {[ex_notifier := []]} {[ex_object := []]} 0 in
  let cb := Callback disconnect_trackable_thunk ex_notifier ex_object in
  let h := Heap {[ex_notifier := [(1, ex_A); (0, ex_X)]]} {[ex_object := [cb]]} 2 in
  let cs := [ex_X; ex_A] in
  (run ex_start empty_heap = Some h0 ∧
   notifiers h0 !! ex_notifier = Some [] ∧
   connect_all ex_notifier cs h0 = Some h ∧
   ∀ l w', l ∈ cs →
     ∃ w'', listener_call ex_call_function ex_call_method l 5%Z w' = Returned w'') ∧
  (∃ calls out,
     broadcast ex_call_function ex_call_method ex_notifier 5%Z h [] = Some (calls, out) ∧
     calls `prefix_of` ((λ l, (l, 5%Z)) <$> reverse cs) ∧
     (∀ w', out = Returned w' → calls = (λ l, (l, 5%Z)) <$> reverse cs) ∧
     ((∀ l w', l ∈ cs →
         ∃ w'', listener_call ex_call_function ex_call_method l 5%Z w' = Returned w'') →
      ∃ w', out = Returned w')) ∧
  broadcast ex_call_function ex_call_method ex_notifier 5%Z h []
  = Some ([(ex_A, 5%Z); (ex_X, 5%Z)], Returned [10%Z; 5%Z]).
Proof.
  intros h0 cb h cs.
  assert (connect_all ex_notifier cs h0 = Some h) as Hconn by reflexivity.
  assert (∀ l w', l ∈ cs →
     ∃ w'', listener_call ex_call_function ex_call_method l 5%Z w' = Returned w'')
    as Hret.
  { intros l w' Hl. apply elem_of_cons in Hl as [->|Hl].
    - by eexists.
    - apply list_elem_of_singleton in Hl as ->. by eexists. }
  split; [by split_and!|]. split; [|reflexivity].
  exact (broadcast_reverse_connection_order ex_call_function ex_call_method
           ex_notifier cs h0 h 5%Z [] eq_refl Hconn).
Defined.

Lemma broadcast_stops_at_throw_witness :
  let cb := Callback disconnect_trackable_thunk ex_notifier ex_object in
  let h := Heap {[ex_notifier := [(2, ex_A); (1, ex_T); (0, ex_X)]]}
             {[ex_object := [cb]]} 3 in
  (run ex_throwing empty_heap = Some h ∧
   notifiers h !! ex_notifier = Some ([(2, ex_A)] ++ (1, ex_T) :: [(0, ex_X)]) ∧
   (call_each ex_call_function ex_call_method [(2, ex_A)].*2 5%Z []).2
   = Returned [10%Z] ∧
   listener_call ex_call_function ex_call_method ex_T 5%Z [10%Z] = Thrown () [10%Z]) ∧
  broadcast ex_call_function ex_call_method ex_notifier 5%Z h []
  = Some ([(ex_A, 5%Z); (ex_T, 5%Z)], Thrown () [10%Z]).
Proof.
  intros cb h. split; [by split_and!|].
  exact (broadcast_stops_at_throw ex_call_function ex_call_method
           ex_notifier h [(2, ex_A)] [(0, ex_X)] (1, ex_T) 5%Z [] [10%Z] [10%Z] ()
           eq_refl eq_refl eq_refl).
Defined.

(** * Further properties *)

(** ** Connections and the nodes they hold *)

Lemma iterator_position_absent it (ls : list node) :
  it ∉ ls.*1 → iterator_position it ls = length ls.
Proof.
  intros Hnotin. unfold iterator_position. apply std_find_if_end.
  apply Forall_forall. intros nd Hnd. apply bool_decide_eq_false.
  intros <-. apply Hnotin. apply list_elem_of_fmap. by exists nd.
Qed.

Lemma iterator_position_split it (ls : list node) :
  iterator_position it ls < length ls →
  ∃ pre l post, ls = pre ++ (it, l) :: post ∧ it ∉ pre.*1.
Proof.
  unfold iterator_position. induction ls as [|[i l] ls IH]; simpl; [lia|].
  case_bool_decide as Hi; simpl in Hi.
  - subst i. intros _. exists [], l, ls. split; [done|]. apply not_elem_of_nil.
  - intros Hlt. destruct IH as (pre & l' & post & -> & Hpre); [lia|].
    exists ((i, l) :: pre), l', post. split; [done|].
    simpl. rewrite not_elem_of_cons. split; [congruence|done].
Qed.

Lemma disconnect_iterator_middle n it (l : listener) (pre post : list node) h :
  notifiers h !! n = Some (pre ++ (it, l) :: post) →
  it ∉ pre.*1 →
  disconnect_iterator n it h = Some (set_notifiers <[n := pre ++ post]> h).
Proof.
  intros Hn Hpre. unfold disconnect_iterator. rewrite Hn. simpl.
  by rewrite iterator_position_found, list_erase_at_middle.
Qed.

Lemma disconnect_iterator_absent n it (ls : list node) h :
  notifiers h !! n = Some ls → it ∉ ls.*1 → disconnect_iterator n it h = None.
Proof.
  intros Hn Hnotin. unfold disconnect_iterator. rewrite Hn. simpl.
  by rewrite iterator_position_absent, list_erase_at_end.
Qed.

(** X1. Connecting a listener and at once disconnecting the returned
    connection gives every notifier back the listener list it had.  The
    callbacks of the trackable objects are those left by [connect]: for a
    listener that is not trackable they are the original ones, for a
    trackable one the callback pushed by [connect] stays behind. *)
Theorem connect_then_disconnect_restores_lists
    (n : addr) (lstnr : listener) (h h1 : heap) (c : connection) :
  connect n lstnr h = Some (c, h1) →
  ∃ h2, connection_disconnect c h1 = Some (Connection None (m_listener c), h2) ∧
        notifiers h2 = notifiers h ∧
        trackables h2 = trackables h1 ∧
        (is_trackable lstnr = false → trackables h2 = trackables h) ∧
        (is_trackable lstnr = true →
           ∃ cbs, trackables h !! get_object lstnr = Some cbs ∧
                  trackables h2 !! get_object lstnr
                  = Some (Callback disconnect_trackable_thunk n (get_object lstnr) :: cbs)).
Proof.
  intros Hconn.
  assert (trackables h1 = if is_trackable lstnr
            then <[get_object lstnr :=
                     Callback disconnect_trackable_thunk n (get_object lstnr)
                     :: default [] (trackables h !! get_object lstnr)]> (trackables h)
            else trackables h) as Ht1.
  { unfold connect in Hconn. destruct (is_trackable lstnr).
    - destruct (track _ _ _ h) as [h0|] eqn:Ht; [|done].
      apply track_frame in Ht as (_ & _ & cbs & Hcbs & Ht). simpl in Hconn.
      destruct (notifiers h0 !! n); [|done]. injection Hconn as <- <-. simpl.
      by rewrite Ht, Hcbs.
    - simpl in Hconn. destruct (notifiers h !! n); [|done].
      by injection Hconn as <- <-. }
  assert (is_trackable lstnr = true → is_Some (trackables h !! get_object lstnr))
    as Hlive.
  { intros Htr. unfold connect in Hconn. rewrite Htr in Hconn.
    unfold track in Hconn. destruct (trackables h !! get_object lstnr); [by eexists|done]. }
  apply connect_push_front in Hconn as (ls & Hls & -> & Hn1 & Hk1). simpl.
  unfold connection_disconnect. simpl.
  rewrite (disconnect_iterator_middle n (next_node h) lstnr [] ls h1);
    [|by rewrite Hn1, lookup_insert_eq|apply not_elem_of_nil].
  simpl. eexists. split; [done|]. simpl. split_and!.
  - by rewrite Hn1, insert_insert_eq, insert_id.
  - done.
  - intros Htr. by rewrite Ht1, Htr.
  - intros Htr. destruct (Hlive Htr) as [cbs Hcbs]. exists cbs. split; [done|].
    by rewrite Ht1, Htr, Hcbs, lookup_insert_eq.
Qed.

Lemma connect_then_disconnect_restores_lists_witness :
  let cb := Callback disconnect_trackable_thunk ex_notifier ex_object in
  let h := Heap {[ex_notifier := [(0, ex_X)]]} {[ex_object := []]} 1 in
  let h1 := Heap {[ex_notifier := [(1, ex_A); (0, ex_X)]]} {[ex_object := [cb]]} 2 in
  let c := Connection (Some ex_notifier) 1 in
  (run ex_free_only empty_heap = Some h ∧
   connect ex_notifier ex_A h = Some (c, h1)) ∧
  ∃ h2, connection_disconnect c h1 = Some (Connection None (m_listener c), h2) ∧
        notifiers h2 = notifiers h ∧
        trackables h2 = trackables h1 ∧
        (is_trackable ex_A = false → trackables h2 = trackables h) ∧
        (is_trackable ex_A = true →
           ∃ cbs, trackables h !! get_object ex_A = Some cbs ∧
                  trackables h2 !! get_object ex_A
                  = Some (Callback disconnect_trackable_thunk ex_notifier (get_object ex_A)
                          :: cbs)).
Proof.
  intros cb h h1 c.
  assert (connect ex_notifier ex_A h = Some (c, h1)) as Hconn by reflexivity.
  split; [by split|].
  exact (connect_then_disconnect_restores_lists ex_notifier ex_A h h1 c Hconn).
Defined.

(** X2. [disconnect_all] leaves every connection of the notifier holding
    an iterator into a list that is now empty: a later [disconnect()] on
    such a connection, not yet spent, erases through that iterator and is
    undefined. *)
Theorem disconnect_all_invalidates_connections
    (n : addr) (h h' : heap) (c : connection) :
  disconnect_all n h = Some h' →
  m_notifier c = Some n →
  connection_disconnect c h' = None.
Proof.
  intros Hall Hc. unfold disconnect_all in Hall.
  destruct (notifiers h !! n); [|done]. simpl in Hall. injection Hall as <-.
  unfold connection_disconnect. rewrite Hc.
  rewrite (disconnect_iterator_absent n (m_listener c) []); [done| |apply not_elem_of_nil].
  simpl. by rewrite lookup_insert_eq.
Qed.

Lemma disconnect_all_invalidates_connections_witness :
  let cb := Callback disconnect_trackable_thunk ex_notifier ex_object in
  let h := Heap {[ex_notifier := [(0, ex_A)]]} {[ex_object := [cb]]} 1 in
  let h' := Heap {[ex_notifier := []]} {[ex_object := [cb]]} 1 in
  let c := Connection (Some ex_notifier) 0 in
  (connect ex_notifier ex_A (Heap {[ex_notifier := []]} {[ex_object := []]} 0)
   = Some (c, h) ∧
   disconnect_all ex_notifier h = Some h' ∧
   m_notifier c = Some ex_notifier) ∧
  connection_disconnect c h' = None.
Proof.
  intros cb h h' c. split; [by split_and!|].
  exact (disconnect_all_invalidates_connections ex_notifier h h' c eq_refl eq_refl).
Defined.

(** X3. Moving a connection leaves the connection moved from with its
    notifier pointer: once the new connection has disconnected, a
    [disconnect()] on the old one erases the same node a second time and
    is undefined. *)
Theorem moved_from_connection_erases_twice
    (n : addr) (h h1 : heap) (ls : list node) (c c1 : connection) :
  notifiers h !! n = Some ls →
  NoDup (ls.*1) →
  m_notifier c = Some n →
  connection_disconnect (connection_move c).1 h = Some (c1, h1) →
  connection_disconnect (connection_move c).2 h1 = None.
Proof.
  intros Hn Hnodup Hc Hfirst. unfold connection_move in *. simpl in *.
  unfold connection_disconnect in *. simpl in Hfirst. rewrite Hc in *.
  destruct (disconnect_iterator n (m_listener c) h) as [h'|] eqn:Hd; [|done].
  injection Hfirst as <- <-.
  unfold disconnect_iterator in Hd. rewrite Hn in Hd. simpl in Hd.
  destruct (list_erase_at _ ls) as [ls'|] eqn:He; [|done].
  injection Hd as <-.
  assert (iterator_position (m_listener c) ls < length ls) as Hlt.
  { unfold list_erase_at in He. by case_decide. }
  apply iterator_position_split in Hlt as (pre & l & post & -> & Hpre).
  rewrite iterator_position_found, list_erase_at_middle in He by done.
  injection He as <-.
  rewrite (disconnect_iterator_absent n (m_listener c) (pre ++ post)); [done| |].
  - simpl. by rewrite lookup_insert_eq.
  - rewrite fmap_app, fmap_cons in Hnodup. simpl in Hnodup.
    apply NoDup_app in Hnodup as (_ & Hdisj & Hpost).
    apply NoDup_cons in Hpost as [Hpost _].
    rewrite fmap_app, elem_of_app. intros [?|?]; done.
Qed.

Lemma moved_from_connection_erases_twice_witness :
  let cb := Callback disconnect_trackable_thunk ex_notifier ex_object in
  let h := Heap {[ex_notifier := [(1, ex_B); (0, ex_A)]]} {[ex_object := [cb; cb]]} 2 in
  let h1 := Heap {[ex_notifier := [(0, ex_A)]]} {[ex_object := [cb; cb]]} 2 in
  let c := Connection (Some ex_notifier) 1 in
  (run ex_two_bound empty_heap = Some h ∧
   notifiers h !! ex_notifier = Some [(1, ex_B); (0, ex_A)] ∧
   NoDup ([(1, ex_B); (0, ex_A)].*1) ∧
   m_notifier c = Some ex_notifier ∧
   connection_disconnect (connection_move c).1 h = Some (Connection None 1, h1)) ∧
  connection_disconnect (connection_move c).2 h1 = None.
Proof.
  intros cb h h1 c.
  assert (NoDup ([(1, ex_B); (0, ex_A)].*1)) as Hnodup.
  { simpl. apply NoDup_cons. split; [|apply NoDup_singleton].
    rewrite list_elem_of_singleton. lia. }
  split; [by split_and!|].
  exact (moved_from_connection_erases_twice ex_notifier h h1 [(1, ex_B); (0, ex_A)]
           c (Connection None 1) eq_refl Hnodup eq_refl eq_refl).
Defined.

(** X4. Two connections of one notifier that hold different nodes can be
    disconnected in either order: both orders complete and leave the same
    store, the list without the two nodes. *)
Theorem connection_disconnects_commute
    (n : addr) (h : heap) (a b c : list node) (i1 i2 : iterator) (l1 l2 : listener) :
  notifiers h !! n = Some (a ++ (i1, l1) :: b ++ (i2, l2) :: c) →
  NoDup ((a ++ (i1, l1) :: b ++ (i2, l2) :: c).*1) →
  ∃ h',
    (connection_disconnect (Connection (Some n) i1) h
       ≫= λ r, snd <$> connection_disconnect (Connection (Some n) i2) r.2) = Some h' ∧
    (connection_disconnect (Connection (Some n) i2) h
       ≫= λ r, snd <$> connection_disconnect (Connection (Some n) i1) r.2) = Some h' ∧
    notifiers h' = <[n := a ++ b ++ c]> (notifiers h) ∧
    trackables h' = trackables h.
Proof.
  intros Hn Hnodup.
  rewrite fmap_app, fmap_cons, fmap_app, fmap_cons in Hnodup. simpl in Hnodup.
  apply NoDup_app in Hnodup as (_ & Ha & Hrest).
  apply NoDup_cons in Hrest as [Hi1 Hrest].
  apply NoDup_app in Hrest as (_ & Hb & _).
  assert (i1 ∉ a.*1) as Hi1a.
  { intros Hin. apply (Ha i1 Hin). by left. }
  assert (i2 ∉ a.*1) as Hi2a.
  { intros Hin. apply (Ha i2 Hin). right. apply elem_of_app. right. by left. }
  assert (i2 ≠ i1) as Hne.
  { intros ->. apply Hi1. apply elem_of_app. right. by left. }
  assert (i2 ∉ b.*1) as Hi2b.
  { intros Hin. apply (Hb i2 Hin). by left. }
  exists (set_notifiers <[n := a ++ b ++ c]> h).
  unfold connection_disconnect. simpl. split_and!; [| |done..].
  - rewrite (disconnect_iterator_middle n i1 l1 a (b ++ (i2, l2) :: c) h) by done.
    simpl.
    rewrite (disconnect_iterator_middle n i2 l2 (a ++ b) c).
    + simpl. unfold set_notifiers. simpl.
      by rewrite insert_insert_eq, <- app_assoc.
    + simpl. by rewrite lookup_insert_eq, <- app_assoc.
    + rewrite fmap_app, elem_of_app. intros [?|?]; done.
  - rewrite (disconnect_iterator_middle n i2 l2 (a ++ (i1, l1) :: b) c h).
    + simpl.
      rewrite (disconnect_iterator_middle n i1 l1 a (b ++ c)).
      * simpl. unfold set_notifiers. simpl. by rewrite insert_insert_eq.
      * simpl. by rewrite lookup_insert_eq, <- app_assoc.
      * done.
    + by rewrite <- app_assoc.
    + rewrite fmap_app, fmap_cons, elem_of_app, elem_of_cons. simpl.
      intros [?|[?|?]]; done.
Qed.

Lemma connection_disconnects_commute_witness :
  let cb := Callback disconnect_trackable_thunk ex_notifier ex_object in
  let h := Heap {[ex_notifier := [(2, ex_B); (1, ex_A); (0, ex_X)]]}
             {[ex_object := [cb; cb]]} 3 in
  let ls : list node := [] ++ (2, ex_B) :: [(1, ex_A)] ++ (0, ex_X) :: [] in
  (run ex_three empty_heap = Some h ∧
   notifiers h !! ex_notifier = Some ls ∧ NoDup (ls.*1)) ∧
  ∃ h',
    (connection_disconnect (Connection (Some ex_notifier) 2) h
       ≫= λ r, snd <$> connection_disconnect (Connection (Some ex_notifier) 0) r.2)
    = Some h' ∧
    (connection_disconnect (Connection (Some ex_notifier) 0) h
       ≫= λ r, snd <$> connection_disconnect (Connection (Some ex_notifier) 2) r.2)
    = Some h' ∧
    notifiers h' = <[ex_notifier := [] ++ [(1, ex_A)] ++ []]> (notifiers h) ∧
    trackables h' = trackables h.
Proof.
  intros cb h ls.
  assert (NoDup (ls.*1)) as Hnodup.
  { simpl. repeat (apply NoDup_cons; split);
      [rewrite !elem_of_cons, elem_of_nil; lia
      |rewrite !elem_of_cons, elem_of_nil; lia
      |apply not_elem_of_nil|apply NoDup_nil_2]. }
  split; [by split_and!|].
  exact (connection_disconnects_commute ex_notifier h [] [(1, ex_A)] [] 2 0 ex_B ex_X
           eq_refl Hnodup).
Defined.

(** ** Disconnecting an object *)

Lemma unbound_length_lt obj (ls : list node) :
  Exists (λ nd : node, get_object nd.2 = obj) ls →
  length (unbound obj (ls.*2)) < length ls.
Proof.
  intros Hex. apply Exists_exists in Hex as (nd & Hin & Hobj).
  rewrite <- (length_fmap snd ls).
  apply (length_filter_lt _ _ nd.2).
  - apply list_elem_of_fmap. by exists nd.
  - by rewrite bool_decide_eq_true_2.
Qed.

Lemma unbound_only_one obj (pre post : list node) (nd : node) :
  get_object nd.2 = obj →
  Forall (λ nd' : node, get_object nd'.2 ≠ obj) (pre ++ post) →
  unbound obj ((pre ++ nd :: post).*2) = pre.*2 ++ post.*2.
Proof.
  intros Hobj Hothers. apply Forall_app in Hothers as [Hpre Hpost].
  assert (∀ l : list node, Forall (λ nd' : node, get_object nd'.2 ≠ obj) l →
            unbound obj (l.*2) = l.*2) as Hkeep.
  { intros l Hl. apply forward_list_remove_if_none, Forall_fmap.
    eapply Forall_impl; [exact Hl|]. intros nd' Hnd'. simpl.
    by apply bool_decide_eq_false. }
  rewrite fmap_app, fmap_cons. unfold unbound.
  rewrite forward_list_remove_if_app. fold (unbound obj (pre.*2)).
  rewrite (Hkeep pre Hpre). f_equal.
  unfold forward_list_remove_if. rewrite filter_cons_False.
  - apply (Hkeep post Hpost).
  - by rewrite bool_decide_eq_true_2.
Qed.

(** X5. When at least one listener of a live notifier is bound to [obj],
    [disconnect(obj)] completes and unlinks exactly one node, whatever the
    number of listeners bound: the listeners not bound to [obj] are then
    at the front of the list, in their order, the nodes left are nodes of
    the list before, and no trackable object is touched. *)
Theorem disconnect_object_bound
    (n obj : addr) (h : heap) (ls : list node) :
  notifiers h !! n = Some ls →
  Exists (λ nd : node, get_object nd.2 = obj) ls →
  ∃ h' ls', disconnect_object n obj h = Some h' ∧
            notifiers h' !! n = Some ls' ∧
            S (length ls') = length ls ∧
            unbound obj (ls.*2) `prefix_of` ls'.*2 ∧
            ls'.*1 `sublist_of` ls.*1 ∧
            trackables h' = trackables h.
Proof.
  intros Hn Hex. pose proof (unbound_length_lt obj ls Hex) as Hlt.
  rewrite (disconnect_object_spec n obj h ls Hn). simpl. fold (unbound obj (ls.*2)).
  rewrite decide_True by done.
  set (k := length (unbound obj (ls.*2))) in *.
  assert (length (delete k (ls.*1)) = length ls - 1) as Hids.
  { rewrite length_delete, length_fmap; [done|].
    apply lookup_lt_is_Some. by rewrite length_fmap. }
  assert (length (unbound obj (ls.*2) ++ drop (S k) (ls.*2)) = length ls - 1) as Hvals.
  { rewrite length_app, length_drop, length_fmap. fold k. lia. }
  eexists _, _. split; [done|]. simpl. split_and!.
  - by rewrite lookup_insert_eq.
  - rewrite length_zip_with, Hids, Hvals. lia.
  - rewrite snd_zip by lia. by apply prefix_app_r.
  - rewrite fst_zip by lia. apply sublist_delete.
  - done.
Qed.

Lemma disconnect_object_bound_witness :
  let cb := Callback disconnect_trackable_thunk ex_notifier ex_object in
  let h := Heap {[ex_notifier := [(2, ex_A); (1, ex_B); (0, ex_X)]]}
             {[ex_object := [cb; cb]]} 3 in
  let ls : list node := [(2, ex_A); (1, ex_B); (0, ex_X)] in
  (run ex_two_bound_then_free empty_heap = Some h ∧
   notifiers h !! ex_notifier = Some ls ∧
   Exists (λ nd : node, get_object nd.2 = ex_object) ls) ∧
  ∃ h' ls', disconnect_object ex_notifier ex_object h = Some h' ∧
            notifiers h' !! ex_notifier = Some ls' ∧
            S (length ls') = length ls ∧
            unbound ex_object (ls.*2) `prefix_of` ls'.*2 ∧
            ls'.*1 `sublist_of` ls.*1 ∧
            trackables h' = trackables h.
Proof.
  intros cb h ls.
  assert (Exists (λ nd : node, get_object nd.2 = ex_object) ls) as Hex.
  { by apply Exists_cons_hd. }
  split; [by split_and!|].
  exact (disconnect_object_bound ex_notifier ex_object h ls eq_refl Hex).
Defined.

(** The store left by [disconnect(obj)] when exactly one listener is bound
    to [obj]: the listeners are the others, but the node unlinked is the
    last one of the list. *)
Lemma disconnect_object_only_one n obj h (pre post : list node) (nd : node) :
  notifiers h !! n = Some (pre ++ nd :: post) →
  get_object nd.2 = obj →
  Forall (λ nd' : node, get_object nd'.2 ≠ obj) (pre ++ post) →
  disconnect_object n obj h
  = Some (set_notifiers
            <[n := zip (delete (length (pre ++ post)) ((pre ++ nd :: post).*1))
                       (pre.*2 ++ post.*2)]> h).
Proof.
  intros Hn Hobj Hothers.
  rewrite (disconnect_object_spec n obj h _ Hn). simpl.
  fold (unbound obj ((pre ++ nd :: post).*2)).
  rewrite (unbound_only_one obj pre post nd Hobj Hothers).
  assert (length (pre.*2 ++ post.*2) = length (pre ++ post)) as Hlen.
  { by rewrite <- fmap_app, length_fmap. }
  rewrite Hlen, decide_True by (rewrite !length_app; simpl; lia).
  rewrite drop_ge, app_nil_r; [done|].
  rewrite length_fmap, !length_app. simpl. lia.
Qed.

(** X6. With exactly one listener bound to [obj], [disconnect(obj)]
    leaves the other listeners connected, in their order, and only
    them. *)
Theorem disconnect_object_removes_the_bound_listener
    (n obj : addr) (h : heap) (pre post : list node) (nd : node) :
  notifiers h !! n = Some (pre ++ nd :: post) →
  get_object nd.2 = obj →
  Forall (λ nd' : node, get_object nd'.2 ≠ obj) (pre ++ post) →
  ∃ h' ls', disconnect_object n obj h = Some h' ∧
            notifiers h' !! n = Some ls' ∧
            ls'.*2 = pre.*2 ++ post.*2.
Proof.
  intros Hn Hobj Hothers.
  rewrite (disconnect_object_only_one n obj h pre post nd Hn Hobj Hothers).
  eexists _, _. split; [done|]. simpl. split; [by rewrite lookup_insert_eq|].
  apply snd_zip.
  rewrite length_delete, !length_fmap, <- fmap_app, length_fmap, !length_app.
  - simpl. lia.
  - apply lookup_lt_is_Some. rewrite length_fmap, !length_app. simpl. lia.
Qed.

Lemma disconnect_object_removes_the_bound_listener_witness :
  let cb := Callback disconnect_trackable_thunk ex_notifier ex_object in
  let h := Heap {[ex_notifier := [(2, ex_A); (1, ex_T); (0, ex_X)]]}
             {[ex_object := [cb]]} 3 in
  (run ex_throwing empty_heap = Some h ∧
   notifiers h !! ex_notifier = Some ([] ++ (2, ex_A) :: [(1, ex_T); (0, ex_X)]) ∧
   get_object ex_A = ex_object ∧
   Forall (λ nd' : node, get_object nd'.2 ≠ ex_object) ([] ++ [(1, ex_T); (0, ex_X)])) ∧
  ∃ h' ls', disconnect_object ex_notifier ex_object h = Some h' ∧
            notifiers h' !! ex_notifier = Some ls' ∧
            ls'.*2 = ([] : list node).*2 ++ [(1, ex_T); (0, ex_X)].*2.
Proof.
  intros cb h.
  assert (Forall (λ nd' : node, get_object nd'.2 ≠ ex_object)
            ([] ++ [(1, ex_T); (0, ex_X)])) as Hothers.
  { repeat constructor; simpl; discriminate. }
  split; [by split_and!|].
  exact (disconnect_object_removes_the_bound_listener ex_notifier ex_object h
           [] [(1, ex_T); (0, ex_X)] (2, ex_A) eq_refl eq_refl Hothers).
Defined.

Lemma delete_last_position {A} (l : list A) (x : A) :
  delete (length l) (l ++ [x]) = l.
Proof. induction l as [|y l IH]; simpl; [done|]. by f_equal. Qed.

(** X7. [std::remove_if] shifts the listeners towards the front and the
    node erased is the last one.  So when the one listener bound to [obj]
    is not the last of the list, [disconnect(obj)] keeps the last listener
    connected but erases the node its connection holds: [disconnect()] on
    that connection is undefined afterwards. *)
Theorem disconnect_object_strands_last_connection
    (n obj : addr) (h : heap) (pre mid : list node) (nd : node)
    (it : iterator) (l : listener) :
  notifiers h !! n = Some (pre ++ nd :: mid ++ [(it, l)]) →
  NoDup ((pre ++ nd :: mid ++ [(it, l)]).*1) →
  get_object nd.2 = obj →
  Forall (λ nd' : node, get_object nd'.2 ≠ obj) (pre ++ mid ++ [(it, l)]) →
  ∃ h' ls', disconnect_object n obj h = Some h' ∧
            notifiers h' !! n = Some ls' ∧
            l ∈ ls'.*2 ∧
            connection_disconnect (Connection (Some n) it) h' = None.
Proof.
  intros Hn Hnodup Hobj Hothers.
  rewrite (disconnect_object_only_one n obj h pre (mid ++ [(it, l)]) nd Hn Hobj Hothers).
  set (ids := delete (length (pre ++ mid ++ [(it, l)]))
                ((pre ++ nd :: mid ++ [(it, l)]).*1)).
  set (vals := pre.*2 ++ (mid ++ [(it, l)]).*2).
  assert (ids = (pre ++ nd :: mid).*1) as Hids.
  { unfold ids.
    replace (pre ++ nd :: mid ++ [(it, l)]) with ((pre ++ nd :: mid) ++ [(it, l)])
      by (by rewrite <- app_assoc).
    rewrite fmap_app.
    replace (length (pre ++ mid ++ [(it, l)])) with (length ((pre ++ nd :: mid).*1))
      by solve_length.
    apply delete_last_position. }
  assert (length vals = length ids) as Hlen.
  { rewrite Hids. unfold vals. solve_length. }
  eexists _, _. split; [done|]. simpl. split_and!.
  - by rewrite lookup_insert_eq.
  - rewrite snd_zip by lia. unfold vals. rewrite fmap_app.
    rewrite !elem_of_app. right. right. simpl. by left.
  - unfold connection_disconnect. simpl.
    rewrite (disconnect_iterator_absent n it (zip ids vals)); [done| |].
    + simpl. by rewrite lookup_insert_eq.
    + rewrite fst_zip by lia. rewrite Hids.
      replace (pre ++ nd :: mid ++ [(it, l)]) with ((pre ++ nd :: mid) ++ [(it, l)])
        in Hnodup by (by rewrite <- app_assoc).
      rewrite fmap_app in Hnodup. apply NoDup_app in Hnodup as (_ & Hdisj & _).
      intros Hin. apply (Hdisj it Hin). simpl. by left.
Qed.

Lemma disconnect_object_strands_last_connection_witness :
  let cb := Callback disconnect_trackable_thunk ex_notifier ex_object in
  let h := Heap {[ex_notifier := [(2, ex_A); (1, ex_T); (0, ex_X)]]}
             {[ex_object := [cb]]} 3 in
  let ls : list node := [] ++ (2, ex_A) :: [(1, ex_T)] ++ [(0, ex_X)] in
  (run ex_throwing empty_heap = Some h ∧
   notifiers h !! ex_notifier = Some ls ∧
   NoDup (ls.*1) ∧
   get_object ex_A = ex_object ∧
   Forall (λ nd' : node, get_object nd'.2 ≠ ex_object)
     ([] ++ [(1, ex_T)] ++ [(0, ex_X)])) ∧
  ∃ h' ls', disconnect_object ex_notifier ex_object h = Some h' ∧
            notifiers h' !! ex_notifier = Some ls' ∧
            ex_X ∈ ls'.*2 ∧
            connection_disconnect (Connection (Some ex_notifier) 0) h' = None.
Proof.
  intros cb h ls.
  assert (NoDup (ls.*1)) as Hnodup.
  { simpl. repeat (apply NoDup_cons; split);
      [rewrite !elem_of_cons, elem_of_nil; lia
      |rewrite !elem_of_cons, elem_of_nil; lia
      |apply not_elem_of_nil|apply NoDup_nil_2]. }
  assert (Forall (λ nd' : node, get_object nd'.2 ≠ ex_object)
            ([] ++ [(1, ex_T)] ++ [(0, ex_X)])) as Hothers.
  { repeat constructor; simpl; discriminate. }
  split; [by split_and!|].
  exact (disconnect_object_strands_last_connection ex_notifier ex_object h
           [] [(1, ex_T)] (2, ex_A) 0 ex_X eq_refl Hnodup eq_refl Hothers).
Defined.

(** X8. A listener made from a free function holds the null pointer as
    its object, so [disconnect(nullptr)] disconnects it: when every other
    listener has an object, the free function's listener is the one
    removed. *)
Theorem disconnect_nullptr_removes_free_function
    (n : addr) (h : heap) (pre post : list node) (it : iterator) (TFunc : N) :
  notifiers h !! n = Some (pre ++ (it, make_function TFunc) :: post) →
  Forall (λ nd : node, has_object nd.2 = true) (pre ++ post) →
  has_object (make_function TFunc) = false ∧
  ∃ h' ls', disconnect_object n nullptr h = Some h' ∧
            notifiers h' !! n = Some ls' ∧
            ls'.*2 = pre.*2 ++ post.*2.
Proof.
  intros Hn Hothers. split; [done|].
  assert (Forall (λ nd' : node, get_object nd'.2 ≠ nullptr) (pre ++ post)) as Hne.
  { eapply Forall_impl; [exact Hothers|]. intros nd Hnd. unfold has_object in Hnd.
    apply negb_true_iff, bool_decide_eq_false in Hnd. done. }
  rewrite (disconnect_object_only_one n nullptr h pre post (it, make_function TFunc)
             Hn eq_refl Hne).
  eexists _, _. split; [done|]. simpl. split; [by rewrite lookup_insert_eq|].
  apply snd_zip.
  rewrite length_delete, !length_fmap, <- fmap_app, length_fmap, !length_app.
  - simpl. lia.
  - apply lookup_lt_is_Some. rewrite length_fmap, !length_app. simpl. lia.
Qed.

Lemma disconnect_nullptr_removes_free_function_witness :
  let cb := Callback disconnect_trackable_thunk ex_notifier ex_object in
  let h := Heap {[ex_notifier := [(1, ex_A); (0, ex_X)]]} {[ex_object := [cb]]} 2 in
  (run (ex_free_only ++ [connect_ ex_notifier ex_A]) empty_heap = Some h ∧
   notifiers h !! ex_notifier = Some ([(1, ex_A)] ++ (0, make_function 3) :: []) ∧
   Forall (λ nd : node, has_object nd.2 = true) ([(1, ex_A)] ++ [])) ∧
  has_object (make_function 3) = false ∧
  ∃ h' ls', disconnect_object ex_notifier nullptr h = Some h' ∧
            notifiers h' !! ex_notifier = Some ls' ∧
            ls'.*2 = [(1, ex_A)].*2 ++ ([] : list node).*2.
Proof.
  intros cb h.
  assert (Forall (λ nd : node, has_object nd.2 = true) ([(1, ex_A)] ++ [])) as Hothers.
  { by repeat constructor. }
  split; [by split_and!|].
  exact (disconnect_nullptr_removes_free_function ex_notifier h [(1, ex_A)] [] 0 3
           eq_refl Hothers).
Defined.

(** ** Destroying a trackable object *)

Lemma callback_call_only_one cb h :
  one_listener_bound (cb_notifier cb) (cb_object cb) h →
  ∃ h1 ls ls1, callback_call cb h = Some h1 ∧
               notifiers h !! cb_notifier cb = Some ls ∧
               notifiers h1 !! cb_notifier cb = Some ls1 ∧
               ls1.*2 = unbound (cb_object cb) (ls.*2) ∧
               trackables h1 = trackables h ∧
               ∀ m, m ≠ cb_notifier cb → notifiers h1 !! m = notifiers h !! m.
Proof.
  intros (ls & Hls & Hone).
  destruct (disconnect_object_single _ _ h ls Hls Hone) as (h1 & ls1 & Hd & Hls1 & Hvals).
  exists h1, ls, ls1. unfold callback_call, disconnect_trackable.
  destruct (cb_function cb). split_and!; [done..| |];
    by apply disconnect_object_frame in Hd as (? & _ & ?).
Qed.

(** Running the callbacks of an object when each names another notifier,
    which holds exactly one listener bound to the callback's object. *)
Lemma for_each_callback_only_one (cbs : list callback) h :
  NoDup (cb_notifier <$> cbs) →
  Forall (λ cb, one_listener_bound (cb_notifier cb) (cb_object cb) h) cbs →
  ∃ h', for_each callback_call cbs h = Some h' ∧
        trackables h' = trackables h ∧
        (∀ cb ls, cb ∈ cbs → notifiers h !! cb_notifier cb = Some ls →
           ∃ ls', notifiers h' !! cb_notifier cb = Some ls' ∧
                  ls'.*2 = unbound (cb_object cb) (ls.*2)) ∧
        (∀ m, m ∉ cb_notifier <$> cbs → notifiers h' !! m = notifiers h !! m).
Proof.
  revert h. induction cbs as [|cb cbs IH]; intros h Hnodup Hone.
  - exists h. split_and!; [done..| |done]. intros cb ls Hin. by apply elem_of_nil in Hin.
  - rewrite fmap_cons in Hnodup. apply NoDup_cons in Hnodup as [Hfirst Hnodup].
    apply Forall_cons in Hone as [Hcb Hrest].
    destruct (callback_call_only_one cb h Hcb)
      as (h1 & ls0 & ls1 & Hcall & Hls0 & Hls1 & Hvals & Ht1 & Hframe1).
    destruct (IH h1 Hnodup) as (h' & Hrun & Ht' & Hrem & Hframe').
    { apply Forall_forall. intros cb' Hin.
      rewrite Forall_forall in Hrest. destruct (Hrest cb' Hin) as (ls & Hls & Hone').
      exists ls. split; [|done]. rewrite Hframe1; [done|].
      intros Heq. apply Hfirst. rewrite <- Heq. by apply list_elem_of_fmap_2. }
    exists h'.
    change (for_each callback_call (cb :: cbs) h)
      with (callback_call cb h ≫= for_each callback_call cbs).
    rewrite Hcall. simpl. split_and!; [done|congruence| |].
    + intros cb0 ls Hin Hls. apply elem_of_cons in Hin as [->|Hin].
      * rewrite Hls0 in Hls. injection Hls as <-.
        exists ls1. split; [|done]. by rewrite Hframe'.
      * apply Hrem; [done|]. rewrite Hframe1; [done|].
        intros Heq. apply Hfirst. rewrite <- Heq. by apply list_elem_of_fmap_2.
    + intros m Hm. simpl in Hm. rewrite not_elem_of_cons in Hm. destruct Hm as [Hne Hm].
      rewrite (Hframe' m Hm). by apply Hframe1.
Qed.

(** X9. The tracking protocol in the case it was written for.  When each
    callback of a trackable object names a different live notifier and
    that notifier holds exactly one listener bound to the object,
    destroying the object completes: each of these notifiers loses that
    listener and keeps its others in order, no listener bound to the
    object is left in them, every other notifier is untouched, and the
    object is gone. *)
Theorem trackable_dtor_disconnects_its_listeners
    (o : addr) (h : heap) (cbs : list callback) :
  trackables h !! o = Some cbs →
  NoDup (cb_notifier <$> cbs) →
  Forall (λ cb, cb_object cb = o ∧ one_listener_bound (cb_notifier cb) o h) cbs →
  ∃ h', trackable_dtor o h = Some h' ∧
        trackables h' = delete o (trackables h) ∧
        (∀ cb ls, cb ∈ cbs → notifiers h !! cb_notifier cb = Some ls →
           ∃ ls', notifiers h' !! cb_notifier cb = Some ls' ∧
                  ls'.*2 = unbound o (ls.*2) ∧
                  Forall (λ l, get_object l ≠ o) (ls'.*2)) ∧
        (∀ m, m ∉ cb_notifier <$> cbs → notifiers h' !! m = notifiers h !! m).
Proof.
  intros Ho Hnodup Hone.
  destruct (for_each_callback_only_one cbs h Hnodup)
    as (h1 & Hrun & Ht1 & Hrem & Hframe).
  { eapply Forall_impl; [exact Hone|]. intros cb [-> Hcb]. done. }
  unfold trackable_dtor. rewrite Ho. simpl. rewrite Hrun. simpl.
  eexists. split; [done|]. simpl. split_and!; [by rewrite Ht1| |done].
  intros cb ls Hin Hls. destruct (Hrem cb ls Hin Hls) as (ls' & Hls' & Hvals).
  rewrite Forall_forall in Hone. destruct (Hone cb Hin) as [Hobj _].
  rewrite Hobj in Hvals. exists ls'. split_and!; [done..|].
  rewrite Hvals. eapply Forall_impl; [apply forward_list_remove_if_survivors|].
  intros l Hl. by apply bool_decide_eq_false in Hl.
Qed.

Lemma trackable_dtor_disconnects_its_listeners_witness :
  let cb m := Callback disconnect_trackable_thunk m ex_object in
  let h := Heap {[ex_notifier := [(1, ex_A); (0, ex_X)]; ex_copy := [(2, ex_B)]]}
             {[ex_object := [cb ex_copy; cb ex_notifier]]} 3 in
  let cbs := [cb ex_copy; cb ex_notifier] in
  (run ex_two_notifiers empty_heap = Some h ∧
   trackables h !! ex_object = Some cbs ∧
   NoDup (cb_notifier <$> cbs) ∧
   Forall (λ cb, cb_object cb = ex_object
                 ∧ one_listener_bound (cb_notifier cb) ex_object h) cbs) ∧
  (∃ h', trackable_dtor ex_object h = Some h' ∧
         trackables h' = delete ex_object (trackables h) ∧
         (∀ cb ls, cb ∈ cbs → notifiers h !! cb_notifier cb = Some ls →
            ∃ ls', notifiers h' !! cb_notifier cb = Some ls' ∧
                   ls'.*2 = unbound ex_object (ls.*2) ∧
                   Forall (λ l, get_object l ≠ ex_object) (ls'.*2)) ∧
         (∀ m, m ∉ cb_notifier <$> cbs → notifiers h' !! m = notifiers h !! m)) ∧
  trackable_dtor ex_object h
  = Some (Heap {[ex_notifier := [(1, ex_X)]; ex_copy := []]} ∅ 3).
Proof.
  intros cb h cbs.
  assert (NoDup (cb_notifier <$> cbs)) as Hnodup.
  { simpl. apply NoDup_cons. split; [|apply NoDup_singleton].
    rewrite list_elem_of_singleton. discriminate. }
  assert (Forall (λ cb, cb_object cb = ex_object
                        ∧ one_listener_bound (cb_notifier cb) ex_object h) cbs) as Hone.
  { repeat constructor; simpl; by eexists. }
  split; [by split_and!|]. split; [|reflexivity].
  exact (trackable_dtor_disconnects_its_listeners ex_object h cbs eq_refl Hnodup Hone).
Defined.

(** X10. A copy of a trackable object starts with the callbacks of the
    original, each still naming the original as its object.  Destroying
    the copy therefore disconnects the listeners bound to the original,
    which is alive and keeps all its registrations. *)
Theorem trackable_copy_dtor_disconnects_original
    (o o' : addr) (h h1 : heap) (cbs : list callback) :
  trackables h !! o = Some cbs →
  trackable_copy_ctor o' o h = Some h1 →
  NoDup (cb_notifier <$> cbs) →
  Forall (λ cb, cb_object cb = o ∧ one_listener_bound (cb_notifier cb) o h) cbs →
  ∃ h2, trackable_dtor o' h1 = Some h2 ∧
        trackables h2 !! o = Some cbs ∧
        (∀ cb ls, cb ∈ cbs → notifiers h !! cb_notifier cb = Some ls →
           ∃ ls', notifiers h2 !! cb_notifier cb = Some ls' ∧
                  ls'.*2 = unbound o (ls.*2)).
Proof.
  intros Ho Hcopy Hnodup Hone.
  unfold trackable_copy_ctor in Hcopy. rewrite Ho in Hcopy. simpl in Hcopy.
  destruct (trackables h !! o') eqn:Ho'; [done|]. injection Hcopy as <-.
  assert (o ≠ o') as Hne by congruence.
  destruct (for_each_callback_only_one cbs (set_trackables <[o' := cbs]> h) Hnodup)
    as (h2 & Hrun & Ht2 & Hrem & _).
  { eapply Forall_impl; [exact Hone|]. intros cb [-> Hcb]. done. }
  unfold trackable_dtor. simpl. rewrite lookup_insert_eq. simpl.
  rewrite Hrun. simpl. eexists. split; [done|]. simpl. split.
  - rewrite Ht2. simpl. rewrite lookup_delete_ne, lookup_insert_ne by done. done.
  - intros cb ls Hin Hls. destruct (Hrem cb ls Hin Hls) as (ls' & Hls' & Hvals).
    rewrite Forall_forall in Hone. destruct (Hone cb Hin) as [Hobj _].
    rewrite Hobj in Hvals. by exists ls'.
Qed.

Lemma trackable_copy_dtor_disconnects_original_witness :
  let cb m := Callback disconnect_trackable_thunk m ex_object in
  let cbs := [cb ex_copy; cb ex_notifier] in
  let h := Heap {[ex_notifier := [(1, ex_A); (0, ex_X)]; ex_copy := [(2, ex_B)]]}
             {[ex_object := cbs]} 3 in
  let h1 := Heap {[ex_notifier := [(1, ex_A); (0, ex_X)]; ex_copy := [(2, ex_B)]]}
              {[ex_object := cbs; ex_second_object := cbs]} 3 in
  (run ex_two_notifiers empty_heap = Some h ∧
   run ex_object_copied empty_heap = Some h1 ∧
   trackables h !! ex_object = Some cbs ∧
   trackable_copy_ctor ex_second_object ex_object h = Some h1 ∧
   NoDup (cb_notifier <$> cbs) ∧
   Forall (λ cb, cb_object cb = ex_object
                 ∧ one_listener_bound (cb_notifier cb) ex_object h) cbs) ∧
  (∃ h2, trackable_dtor ex_second_object h1 = Some h2 ∧
         trackables h2 !! ex_object = Some cbs ∧
         (∀ cb ls, cb ∈ cbs → notifiers h !! cb_notifier cb = Some ls →
            ∃ ls', notifiers h2 !! cb_notifier cb = Some ls' ∧
                   ls'.*2 = unbound ex_object (ls.*2))) ∧
  trackable_dtor ex_second_object h1
  = Some (Heap {[ex_notifier := [(1, ex_X)]; ex_copy := []]} {[ex_object := cbs]} 3).
Proof.
  intros cb cbs h h1.
  assert (NoDup (cb_notifier <$> cbs)) as Hnodup.
  { simpl. apply NoDup_cons. split; [|apply NoDup_singleton].
    rewrite list_elem_of_singleton. discriminate. }
  assert (Forall (λ cb, cb_object cb = ex_object
                        ∧ one_listener_bound (cb_notifier cb) ex_object h) cbs) as Hone.
  { repeat constructor; simpl; by eexists. }
  split; [by split_and!|]. split; [|reflexivity].
  exact (trackable_copy_dtor_disconnects_original ex_object ex_second_object h h1 cbs
           eq_refl eq_refl Hnodup Hone).
Defined.

Lemma disconnect_object_none_bound n obj h :
  no_listener_bound n obj h → disconnect_object n obj h = None.
Proof.
  intros Hnone. destruct (notifiers h !! n) as [ls|] eqn:Hn.
  - rewrite (disconnect_object_spec n obj h ls Hn). simpl.
    rewrite forward_list_remove_if_none.
    + rewrite length_fmap. by rewrite decide_False by lia.
    + apply Forall_fmap. eapply Forall_impl; [exact (Hnone ls Hn)|].
      intros nd Hnd. simpl. by apply bool_decide_eq_false.
  - unfold disconnect_object. by rewrite Hn.
Qed.

(** [disconnect(obj)] only moves and drops listeners: no listener appears
    in a list that was not in it. *)
Lemma disconnect_object_listeners_from_before n obj h h' m (ls' : list node) (nd' : node) :
  disconnect_object n obj h = Some h' →
  notifiers h' !! m = Some ls' →
  nd' ∈ ls' →
  ∃ ls nd, notifiers h !! m = Some ls ∧ nd ∈ ls ∧ nd.2 = nd'.2.
Proof.
  intros Hd Hls' Hin. destruct (decide (m = n)) as [->|Hne].
  - unfold disconnect_object in Hd.
    destruct (notifiers h !! n) as [ls|] eqn:Hn; [|done]. simpl in Hd.
    rewrite std_remove_if_spec in Hd. simpl in Hd.
    unfold list_erase_at in Hd. case_decide; [|done]. simpl in Hd.
    injection Hd as <-. simpl in Hls'. rewrite lookup_insert_eq in Hls'.
    injection Hls' as <-.
    pose proof (elem_of_sublist _ _ _ Hin (sublist_delete _ _)) as Hzip.
    destruct nd' as [i l]. apply elem_of_zip_r in Hzip.
    assert (l ∈ ls.*2) as Hl.
    { apply elem_of_app in Hzip as [Hk|Hk].
      - by apply list_elem_of_filter in Hk as [_ ?].
      - exact (elem_of_sublist _ _ _ Hk (sublist_drop _ _)). }
    apply list_elem_of_fmap in Hl as (nd & -> & Hnd). by exists ls, nd.
  - apply disconnect_object_frame in Hd as (_ & _ & Hframe).
    rewrite (Hframe m Hne) in Hls'. by exists ls', nd'.
Qed.

Lemma disconnect_object_keeps_none_bound n obj h h' m obj' :
  disconnect_object n obj h = Some h' →
  no_listener_bound m obj' h → no_listener_bound m obj' h'.
Proof.
  intros Hd Hnone ls' Hls'. apply Forall_forall. intros nd' Hin.
  destruct (disconnect_object_listeners_from_before n obj h h' m ls' nd' Hd Hls' Hin)
    as (ls & nd & Hls & Hnd & <-).
  specialize (Hnone ls Hls). rewrite Forall_forall in Hnone. by apply Hnone.
Qed.

Lemma for_each_callback_stale (cbs : list callback) h :
  Exists (λ cb, no_listener_bound (cb_notifier cb) (cb_object cb) h) cbs →
  for_each callback_call cbs h = None.
Proof.
  revert h. induction cbs as [|cb cbs IH]; intros h Hex.
  - by apply Exists_nil in Hex.
  - change (for_each callback_call (cb :: cbs) h)
      with (callback_call cb h ≫= for_each callback_call cbs).
    destruct (callback_call cb h) as [h1|] eqn:Hcall; [|done]. simpl.
    unfold callback_call, disconnect_trackable in Hcall. destruct (cb_function cb).
    apply Exists_cons in Hex as [Hhd|Htl].
    + by rewrite disconnect_object_none_bound in Hcall.
    + apply IH. eapply Exists_impl; [exact Htl|]. intros cb' Hcb'. simpl in Hcb'.
      by eapply disconnect_object_keeps_none_bound.
Qed.

(** X11. Destroying a trackable object is undefined as soon as one of its
    callbacks names a notifier that is gone or that holds no listener
    bound to the callback's object: the callback calls [disconnect(obj)]
    there, which finds nothing to erase.  This is the state left by
    [disconnect_all], by disconnecting the object's last connection and by
    a notifier's destruction after either. *)
Theorem trackable_dtor_stale_registration_undefined
    (o : addr) (h : heap) (cbs : list callback) :
  trackables h !! o = Some cbs →
  Exists (λ cb, no_listener_bound (cb_notifier cb) (cb_object cb) h) cbs →
  trackable_dtor o h = None.
Proof.
  intros Ho Hstale. unfold trackable_dtor. rewrite Ho. simpl.
  by rewrite for_each_callback_stale.
Qed.

Lemma trackable_dtor_stale_registration_undefined_witness :
  let cb := Callback disconnect_trackable_thunk ex_notifier ex_object in
  let h := Heap {[ex_notifier := [(0, ex_X)]]} {[ex_object := [cb]]} 2 in
  (run (ex_free_only ++ [exec (Connect ex_notifier ex_A);
                         exec (ConnectionDisconnect (Connection (Some ex_notifier) 1))])
     empty_heap = Some h ∧
   trackables h !! ex_object = Some [cb] ∧
   Exists (λ cb, no_listener_bound (cb_notifier cb) (cb_object cb) h) [cb]) ∧
  trackable_dtor ex_object h = None.
Proof.
  intros cb h.
  assert (Exists (λ cb, no_listener_bound (cb_notifier cb) (cb_object cb) h) [cb])
    as Hstale.
  { apply Exists_cons_hd. intros ls Hls. simpl in Hls.
    change (Some [(0, ex_X)] = Some ls) in Hls. injection Hls as <-.
    repeat constructor. simpl. discriminate. }
  split; [by split_and!|].
  exact (trackable_dtor_stale_registration_undefined ex_object h [cb] eq_refl Hstale).
Defined.

(** ** Destroying a notifier *)

Lemma untrack_listener_frame n (nd : node) h h1 :
  untrack_listener n nd h = Some h1 →
  notifiers h1 = notifiers h ∧ next_node h1 = next_node h ∧
  ∀ o, trackables h1 !! o = None ↔ trackables h !! o = None.
Proof.
  unfold untrack_listener. destruct (is_trackable nd.2).
  - intros Hun. apply untrack_lookup in Hun as (Hn & Hk & Ht).
    split_and!; [done..|]. intros o. rewrite Ht. apply fmap_None.
  - by intros [= <-].
Qed.

Lemma for_each_untrack_listener_dead n (ls : list node) h :
  Exists (λ nd : node,
    is_trackable nd.2 = true ∧ trackables h !! get_object nd.2 = None) ls →
  for_each (untrack_listener n) ls h = None.
Proof.
  revert h. induction ls as [|nd ls IH]; intros h Hex.
  - by apply Exists_nil in Hex.
  - change (for_each (untrack_listener n) (nd :: ls) h)
      with (untrack_listener n nd h ≫= for_each (untrack_listener n) ls).
    destruct (untrack_listener n nd h) as [h1|] eqn:Hun; [|done]. simpl.
    apply Exists_cons in Hex as [[Htr Hdead]|Htl].
    + unfold untrack_listener, untrack in Hun. by rewrite Htr, Hdead in Hun.
    + apply IH. apply untrack_listener_frame in Hun as (_ & _ & Hdom).
      eapply Exists_impl; [exact Htl|]. intros nd' [Htr' Hdead']. simpl.
      split; [done|]. by apply Hdom.
Qed.

(** X12. Destroying a notifier is undefined when it still holds a
    trackable listener whose object has been destroyed: the destructor
    calls [untrack] on that object.  A notifier copied from another is in
    that state once a tracked object of the original is gone. *)
Theorem notifier_dtor_dead_target_undefined
    (n : addr) (h : heap) (ls : list node) :
  notifiers h !! n = Some ls →
  Exists (λ nd : node,
    is_trackable nd.2 = true ∧ trackables h !! get_object nd.2 = None) ls →
  notifier_dtor n h = None.
Proof.
  intros Hn Hdead. unfold notifier_dtor. rewrite Hn. simpl.
  by rewrite for_each_untrack_listener_dead.
Qed.

Lemma notifier_dtor_dead_target_undefined_witness :
  let h := Heap {[ex_notifier := []; ex_copy := [(1, ex_A)]]} ∅ 2 in
  (run ex_copy_then_object_dies empty_heap = Some h ∧
   notifiers h !! ex_copy = Some [(1, ex_A)] ∧
   Exists (λ nd : node,
     is_trackable nd.2 = true ∧ trackables h !! get_object nd.2 = None) [(1, ex_A)]) ∧
  notifier_dtor ex_copy h = None.
Proof.
  intros h.
  assert (Exists (λ nd : node,
     is_trackable nd.2 = true ∧ trackables h !! get_object nd.2 = None) [(1, ex_A)])
    as Hdead.
  { by apply Exists_cons_hd. }
  split; [by split_and!|].
  exact (notifier_dtor_dead_target_undefined ex_copy h [(1, ex_A)] eq_refl Hdead).
Defined.

(** ** track and untrack *)

(** X13. On an object that holds no registration for a notifier, [track]
    followed by [untrack] of that notifier gives back the store as it
    was. *)
Theorem track_then_untrack_restores
    (o n : addr) (f : track_func) (h : heap) (cbs : list callback) :
  trackables h !! o = Some cbs →
  Forall (λ cb, cb_notifier cb ≠ n) cbs →
  ∃ h1, track o n f h = Some h1 ∧
        trackables h1 !! o = Some (Callback f n o :: cbs) ∧
        untrack o n h1 = Some h.
Proof.
  intros Ho Hnone. unfold track. rewrite Ho. simpl. eexists. split; [done|].
  simpl. rewrite lookup_insert_eq. split; [done|].
  unfold untrack. simpl. rewrite lookup_insert_eq. simpl.
  unfold forward_list_remove_if. rewrite filter_cons_False.
  2:{ simpl. by rewrite bool_decide_eq_true_2. }
  fold (forward_list_remove_if (λ cb, bool_decide (cb_notifier cb = n)) cbs).
  rewrite not_registered_survives by done.
  unfold set_trackables. simpl. rewrite insert_insert_eq.
  destruct h as [ns ts k]. simpl in *. by rewrite insert_id.
Qed.

Lemma track_then_untrack_restores_witness :
  let cb := Callback disconnect_trackable_thunk ex_notifier ex_object in
  let h := Heap {[ex_notifier := [(0, ex_A)]]} {[ex_object := [cb]]} 1 in
  (run ex_one_bound empty_heap = Some h ∧
   trackables h !! ex_object = Some [cb] ∧
   Forall (λ cb, cb_notifier cb ≠ ex_copy) [cb]) ∧
  ∃ h1, track ex_object ex_copy disconnect_trackable_thunk h = Some h1 ∧
        trackables h1 !! ex_object
        = Some (Callback disconnect_trackable_thunk ex_copy ex_object :: [cb]) ∧
        untrack ex_object ex_copy h1 = Some h.
Proof.
  intros cb h.
  assert (Forall (λ cb, cb_notifier cb ≠ ex_copy) [cb]) as Hnone.
  { repeat constructor. simpl. discriminate. }
  split; [by split_and!|].
  exact (track_then_untrack_restores ex_object ex_copy disconnect_trackable_thunk h [cb]
           eq_refl Hnone).
Defined.

(** ** Connecting and the registrations it leaves *)

Lemma connect_frame n (lstnr : listener) h h1 :
  connect_ n lstnr h = Some h1 →
  (∀ m, m ≠ n → notifiers h1 !! m = notifiers h !! m) ∧
  (is_trackable lstnr = true → is_Some (trackables h !! get_object lstnr)) ∧
  ∀ o, trackables h1 !! o
       = (λ cbs, (if decide (is_trackable lstnr = true ∧ get_object lstnr = o)
                  then [Callback disconnect_trackable_thunk n o] else []) ++ cbs)
         <$> trackables h !! o.
Proof.
  unfold connect_, connect. intros Hc.
  destruct (is_trackable lstnr) eqn:Htr.
  - destruct (track _ _ _ h) as [h0|] eqn:Ht; [|done].
    apply track_frame in Ht as (Hn0 & Hk0 & cbs & Hcbs & Ht0). simpl in Hc.
    destruct (notifiers h0 !! n) as [ls|]; [|done]. simpl in Hc.
    injection Hc as <-. simpl. rewrite Hn0, Ht0. split_and!.
    + intros m Hm. by rewrite lookup_insert_ne.
    + intros _. by eexists.
    + intros o. case_decide as Ho.
      * destruct Ho as [_ <-]. by rewrite lookup_insert_eq, Hcbs.
      * rewrite lookup_insert_ne by (intros Heq; apply Ho; by split).
        by destruct (trackables h !! o).
  - simpl in Hc. destruct (notifiers h !! n) as [ls|]; [|done]. simpl in Hc.
    injection Hc as <-. simpl. split_and!.
    + intros m Hm. by rewrite lookup_insert_ne.
    + done.
    + intros o. by destruct (trackables h !! o).
Qed.

Lemma registrations_cons n o (l : listener) (cs : list listener) :
  registrations n o (l :: cs)
  = (if decide (is_trackable l = true ∧ get_object l = o)
     then [Callback disconnect_trackable_thunk n o] else []) ++ registrations n o cs.
Proof.
  unfold registrations, bound_trackable. rewrite filter_cons.
  by case_decide.
Qed.

Lemma replicate_app_cons {A} (k : nat) (x : A) (l : list A) :
  replicate k x ++ x :: l = x :: replicate k x ++ l.
Proof. induction k as [|k IH]; simpl; [done|]. by rewrite IH. Qed.

Lemma connect_all_frame n (cs : list listener) h h' :
  connect_all n cs h = Some h' →
  (∀ m, m ≠ n → notifiers h' !! m = notifiers h !! m) ∧
  (∀ l, l ∈ cs → is_trackable l = true → is_Some (trackables h !! get_object l)) ∧
  ∀ o, trackables h' !! o = (λ cbs, registrations n o cs ++ cbs) <$> trackables h !! o.
Proof.
  unfold connect_all. revert h. induction cs as [|l cs IH]; intros h.
  - intros [= <-]. split_and!; [done| |].
    + intros l Hl. by apply elem_of_nil in Hl.
    + intros o. by destruct (trackables h !! o).
  - change (for_each (connect_ n) (l :: cs) h)
      with (connect_ n l h ≫= for_each (connect_ n) cs).
    destruct (connect_ n l h) as [h1|] eqn:Hc; [|done]. simpl. intros Hrest.
    apply connect_frame in Hc as (Hn1 & Hlive1 & Ht1).
    apply IH in Hrest as (Hn' & Hlive' & Ht'). split_and!.
    + intros m Hm. by rewrite Hn', Hn1.
    + intros l0 Hl0 Htr. apply elem_of_cons in Hl0 as [->|Hl0]; [by apply Hlive1|].
      specialize (Hlive' l0 Hl0 Htr). rewrite Ht1 in Hlive'.
      by apply fmap_is_Some in Hlive'.
    + intros o. rewrite Ht', Ht1, registrations_cons.
      destruct (trackables h !! o) as [cbs|]; simpl; [|done]. f_equal.
      unfold registrations.
      destruct (decide (is_trackable l = true ∧ get_object l = o)); simpl; [|done].
      apply replicate_app_cons.
Qed.

(** X14. [track] pushes a callback at every call: connecting listeners
    to a notifier leaves each trackable object with one more callback for
    that notifier per trackable listener bound to it, in front of the
    callbacks it had, not one per notifier. *)
Theorem connect_all_registers_every_listener
    (n o : addr) (cs : list listener) (h h' : heap) (cbs : list callback) :
  connect_all n cs h = Some h' →
  trackables h !! o = Some cbs →
  trackables h' !! o
  = Some (replicate (length (bound_trackable o cs))
            (Callback disconnect_trackable_thunk n o) ++ cbs).
Proof.
  intros Hconn Ho. apply connect_all_frame in Hconn as (_ & _ & Ht).
  by rewrite Ht, Ho.
Qed.

Lemma connect_all_registers_every_listener_witness :
  let cb := Callback disconnect_trackable_thunk ex_notifier ex_object in
  let h := Heap {[ex_notifier := []]} {[ex_object := []]} 0 in
  let h' := Heap {[ex_notifier := [(2, ex_B); (1, ex_A); (0, ex_X)]]}
              {[ex_object := [cb; cb]]} 3 in
  (run ex_start empty_heap = Some h ∧
   connect_all ex_notifier [ex_X; ex_A; ex_B] h = Some h' ∧
   trackables h !! ex_object = Some []) ∧
  trackables h' !! ex_object
  = Some (replicate (length (bound_trackable ex_object [ex_X; ex_A; ex_B]))
            (Callback disconnect_trackable_thunk ex_notifier ex_object) ++ []).
Proof.
  intros cb h h'. split; [by split_and!|].
  exact (connect_all_registers_every_listener ex_notifier ex_object [ex_X; ex_A; ex_B]
           h h' [] eq_refl eq_refl).
Defined.

Lemma untrack_removes_registrations n o (cs : list listener) (cbs : list callback) :
  Forall (λ cb, cb_notifier cb ≠ n) cbs →
  forward_list_remove_if (λ cb, bool_decide (cb_notifier cb = n))
    (registrations n o cs ++ cbs) = cbs.
Proof.
  intros Hnone.
  rewrite forward_list_remove_if_app, (not_registered_survives n cbs Hnone).
  unfold registrations.
  induction (length (bound_trackable o cs)) as [|k IH]; simpl; [done|].
  unfold forward_list_remove_if in *. rewrite filter_cons_False; [done|].
  simpl. by rewrite bool_decide_eq_true_2.
Qed.

(** X15. The tracking protocol on the notifier's side.  Take a notifier
    with no listeners that no trackable object holds a registration for,
    connect any listeners to it and destroy it: the destruction
    completes, the notifier is gone and every trackable object holds
    exactly the callbacks it held before the connects. *)
Theorem connect_all_then_dtor_restores_registrations
    (n : addr) (cs : list listener) (h0 h : heap) :
  notifiers h0 !! n = Some [] →
  (∀ o cbs, trackables h0 !! o = Some cbs → Forall (λ cb, cb_notifier cb ≠ n) cbs) →
  connect_all n cs h0 = Some h →
  ∃ h', notifier_dtor n h = Some h' ∧
        notifiers h' = delete n (notifiers h0) ∧
        trackables h' = trackables h0.
Proof.
  intros Hn0 Hfresh Hconn.
  destruct (connect_all_listeners n cs h0 h [] Hn0 Hconn) as (ls & Hls & Hvals).
  simpl in Hvals. rewrite app_nil_r in Hvals.
  apply connect_all_frame in Hconn as (Hframe & Hlive & Ht).
  assert (∀ nd : node, nd ∈ ls → nd.2 ∈ cs) as Hcs.
  { intros nd Hnd. apply elem_of_reverse. rewrite <- Hvals.
    by apply list_elem_of_fmap_2. }
  destruct (for_each_untrack_listener n ls h) as (h1 & Hrun & Hn1 & Hk1 & Ht1).
  { apply Forall_forall. intros nd Hnd Htr. rewrite Ht. apply fmap_is_Some.
    by apply Hlive; [apply Hcs|]. }
  unfold notifier_dtor. rewrite Hls. simpl. rewrite Hrun. simpl.
  eexists. split; [done|]. simpl. split.
  - rewrite Hn1. apply map_eq. intros m. destruct (decide (m = n)) as [->|Hne].
    + by rewrite !lookup_delete_eq.
    + rewrite !lookup_delete_ne by done. by apply Hframe.
  - apply map_eq. intros o. rewrite Ht1, Ht.
    destruct (trackables h0 !! o) as [cbs|] eqn:Ho; simpl; [|done]. f_equal.
    case_decide as Htracked.
    + apply untrack_removes_registrations. by eapply Hfresh.
    + simpl. unfold registrations.
      destruct (bound_trackable o cs) as [|l rest] eqn:Hbound; [done|].
      exfalso. apply Htracked.
      assert (l ∈ bound_trackable o cs) as Hl by (rewrite Hbound; by left).
      apply list_elem_of_filter in Hl as [[Htr Hobj] Hl].
      unfold tracked_objects. rewrite Hvals. apply list_elem_of_fmap.
      exists l. split; [done|]. apply list_elem_of_filter. split; [done|].
      by apply elem_of_reverse.
Qed.

Lemma connect_all_then_dtor_restores_registrations_witness :
  let cb m := Callback disconnect_trackable_thunk m ex_object in
  let h0 := Heap {[ex_notifier := []; ex_copy := [(0, ex_B)]]}
              {[ex_object := [cb ex_copy]]} 1 in
  let h := Heap {[ex_notifier := [(3, ex_B); (2, ex_A); (1, ex_X)];
                  ex_copy := [(0, ex_B)]]}
             {[ex_object := [cb ex_notifier; cb ex_notifier; cb ex_copy]]} 4 in
  (run [notifier_ctor ex_notifier; notifier_ctor ex_copy; trackable_ctor ex_object;
        connect_ ex_copy ex_B] empty_heap = Some h0 ∧
   notifiers h0 !! ex_notifier = Some [] ∧
   (∀ o cbs, trackables h0 !! o = Some cbs →
      Forall (λ cb, cb_notifier cb ≠ ex_notifier) cbs) ∧
   connect_all ex_notifier [ex_X; ex_A; ex_B] h0 = Some h) ∧
  ∃ h', notifier_dtor ex_notifier h = Some h' ∧
        notifiers h' = delete ex_notifier (notifiers h0) ∧
        trackables h' = trackables h0.
Proof.
  intros cb h0 h.
  assert (∀ o cbs, trackables h0 !! o = Some cbs →
            Forall (λ cb, cb_notifier cb ≠ ex_notifier) cbs) as Hfresh.
  { intros o cbs Ho. simpl in Ho. apply lookup_singleton_Some in Ho as [_ <-].
    repeat constructor. simpl. discriminate. }
  split; [by split_and!|].
  exact (connect_all_then_dtor_restores_registrations ex_notifier [ex_X; ex_A; ex_B]
           h0 h eq_refl Hfresh eq_refl).
Defined.

(** ** What a call on one notifier leaves alone *)

(** X16. Connecting to a notifier and disconnecting from it, by
    connection, by object or all at once, never changes the listener list
    of another notifier. *)
Theorem calls_leave_other_notifiers
    (n m : addr) (h h' : heap) (lstnr : listener) (c : connection) (obj : addr) :
  m ≠ n →
  connect_ n lstnr h = Some h'
  ∨ (m_notifier c = Some n ∧ snd <$> connection_disconnect c h = Some h')
  ∨ disconnect_object n obj h = Some h'
  ∨ disconnect_all n h = Some h' →
  notifiers h' !! m = notifiers h !! m.
Proof.
  intros Hne [Hc|[[Hn Hc]|[Hc|Hc]]].
  - apply connect_frame in Hc as (Hframe & _). by apply Hframe.
  - unfold connection_disconnect in Hc. rewrite Hn in Hc.
    destruct (disconnect_iterator n (m_listener c) h) as [h1|] eqn:Hd; [|done].
    simpl in Hc. injection Hc as <-.
    apply disconnect_iterator_frame in Hd as (_ & _ & Hframe). by apply Hframe.
  - apply disconnect_object_frame in Hc as (_ & _ & Hframe). by apply Hframe.
  - unfold disconnect_all in Hc. destruct (notifiers h !! n); [|done].
    simpl in Hc. injection Hc as <-. simpl. by rewrite lookup_insert_ne.
Qed.

Lemma calls_leave_other_notifiers_witness :
  let cb m := Callback disconnect_trackable_thunk m ex_object in
  let h := Heap {[ex_notifier := [(1, ex_A); (0, ex_X)]; ex_copy := [(2, ex_B)]]}
             {[ex_object := [cb ex_copy; cb ex_notifier]]} 3 in
  let h' := Heap {[ex_notifier := [(1, ex_X)]; ex_copy := [(2, ex_B)]]}
              {[ex_object := [cb ex_copy; cb ex_notifier]]} 3 in
  (run ex_two_notifiers empty_heap = Some h ∧
   ex_copy ≠ ex_notifier ∧
   disconnect_object ex_notifier ex_object h = Some h') ∧
  notifiers h' !! ex_copy = notifiers h !! ex_copy.
Proof.
  intros cb h h'.
  assert (ex_copy ≠ ex_notifier) as Hne by discriminate.
  assert (disconnect_object ex_notifier ex_object h = Some h') as Hd by reflexivity.
  split; [by split_and!|].
  exact (calls_leave_other_notifiers ex_notifier ex_copy h h' ex_X
           (Connection None 0) ex_object Hne (or_intror (or_intror (or_introl Hd)))).
Defined.

(** ** Broadcasts and the other operations *)

Section broadcast_more.
Context {Params W E : Type}.
Context (call_function : N → Params → W → outcome W E).
Context (call_method : N → addr → Params → W → outcome W E).

(** X17. After a connection has disconnected the node it holds, a
    broadcast is the broadcast of the listeners in front of that node
    followed by those behind it: the disconnected listener is skipped and
    the others are called as before. *)
Theorem broadcast_after_connection_disconnect
    (n : addr) (h : heap) (pre post : list node) (it : iterator) (l : listener)
    (params : Params) (w : W) :
  notifiers h !! n = Some (pre ++ (it, l) :: post) →
  it ∉ pre.*1 →
  ∃ c' h', connection_disconnect (Connection (Some n) it) h = Some (c', h') ∧
           broadcast call_function call_method n params h' w
           = Some (call_each call_function call_method (pre.*2 ++ post.*2) params w).
Proof.
  intros Hn Hpre. unfold connection_disconnect. simpl.
  rewrite (disconnect_iterator_middle n it l pre post h Hn Hpre). simpl.
  eexists _, _. split; [done|]. unfold broadcast. simpl.
  rewrite lookup_insert_eq. simpl. by rewrite fmap_app.
Qed.

(** X18. A notifier made by copy construction or copy assignment
    broadcasts like the notifier it was copied from: the same listeners
    are called, in the same order. *)
Theorem notifier_copy_broadcasts_alike
    (n n' : addr) (h h1 : heap) (params : Params) (w : W) :
  notifier_copy_ctor n' n h = Some h1 ∨ notifier_copy_assign n' n h = Some h1 →
  broadcast call_function call_method n' params h1 w
  = broadcast call_function call_method n params h w ∧
  is_Some (broadcast call_function call_method n params h w).
Proof.
  intros Hcopy. unfold broadcast.
  destruct Hcopy as [Hc|Hc].
  - unfold notifier_copy_ctor in Hc.
    destruct (notifiers h !! n) as [ls|] eqn:Hn; [|done]. simpl in Hc.
    destruct (notifiers h !! n'); [done|]. injection Hc as <-. simpl.
    rewrite lookup_insert_eq. simpl. by rewrite copy_nodes_listeners.
  - unfold notifier_copy_assign in Hc.
    destruct (notifiers h !! n) as [ls|] eqn:Hn; [|done]. simpl in Hc.
    destruct (notifiers h !! n') as [ls0|] eqn:Hn'; [|done]. simpl in Hc.
    case_decide as Heq; injection Hc as <-.
    + subst n'. by rewrite Hn.
    + simpl. rewrite lookup_insert_eq. simpl. by rewrite assign_nodes_listeners.
Qed.
End broadcast_more.

Lemma broadcast_after_connection_disconnect_witness :
  let cb := Callback disconnect_trackable_thunk ex_notifier ex_object in
  let h := Heap {[ex_notifier := [(2, ex_A); (1, ex_T); (0, ex_X)]]}
             {[ex_object := [cb]]} 3 in
  (run ex_throwing empty_heap = Some h ∧
   notifiers h !! ex_notifier = Some ([(2, ex_A)] ++ (1, ex_T) :: [(0, ex_X)]) ∧
   1 ∉ [(2, ex_A)].*1) ∧
  (∃ c' h', connection_disconnect (Connection (Some ex_notifier) 1) h = Some (c', h') ∧
            broadcast ex_call_function ex_call_method ex_notifier 5%Z h' []
            = Some (call_each ex_call_function ex_call_method
                      ([(2, ex_A)].*2 ++ [(0, ex_X)].*2) 5%Z [])) ∧
  call_each ex_call_function ex_call_method ([(2, ex_A)].*2 ++ [(0, ex_X)].*2) 5%Z []
  = ([(ex_A, 5%Z); (ex_X, 5%Z)], Returned [10%Z; 5%Z]).
Proof.
  intros cb h.
  assert (1 ∉ [(2, ex_A)].*1) as Hpre.
  { simpl. rewrite list_elem_of_singleton. lia. }
  split; [by split_and!|]. split; [|reflexivity].
  exact (broadcast_after_connection_disconnect ex_call_function ex_call_method
           ex_notifier h [(2, ex_A)] [(0, ex_X)] 1 ex_T 5%Z [] eq_refl Hpre).
Defined.

Lemma notifier_copy_broadcasts_alike_witness :
  let cb := Callback disconnect_trackable_thunk ex_notifier ex_object in
  let h := Heap {[ex_notifier := [(1, ex_A); (0, ex_X)]]} {[ex_object := [cb]]} 2 in
  let h1 := Heap {[ex_notifier := [(1, ex_A); (0, ex_X)];
                   ex_copy := [(2, ex_A); (3, ex_X)]]} {[ex_object := [cb]]} 4 in
  (run (ex_free_only ++ [connect_ ex_notifier ex_A]) empty_heap = Some h ∧
   notifier_copy_ctor ex_copy ex_notifier h = Some h1) ∧
  broadcast ex_call_function ex_call_method ex_copy 5%Z h1 []
  = broadcast ex_call_function ex_call_method ex_notifier 5%Z h [] ∧
  is_Some (broadcast ex_call_function ex_call_method ex_notifier 5%Z h []).
Proof.
  intros cb h h1.
  assert (notifier_copy_ctor ex_copy ex_notifier h = Some h1) as Hcopy by reflexivity.
  split; [by split|].
  exact (notifier_copy_broadcasts_alike ex_call_function ex_call_method
           ex_notifier ex_copy h h1 5%Z [] (or_introl Hcopy)).
Defined.

(** ** The nodes of the lists *)

Lemma nodes_fresh_same h h' :
  notifiers h' = notifiers h → next_node h' = next_node h →
  nodes_fresh h → nodes_fresh h'.
Proof. unfold nodes_fresh. by intros -> ->. Qed.

Lemma nodes_fresh_insert h h' n (ls : list node) :
  nodes_fresh h →
  notifiers h' = <[n := ls]> (notifiers h) →
  next_node h ≤ next_node h' →
  NoDup (ls.*1) →
  Forall (λ it, it < next_node h') (ls.*1) →
  nodes_fresh h'.
Proof.
  unfold nodes_fresh. intros Hfresh -> Hle Hnodup Hlt.
  apply map_Forall_insert_2; [done|].
  eapply map_Forall_impl; [exact Hfresh|]. intros m ls0 [Hnd Hbound]. simpl.
  split; [done|]. eapply Forall_impl; [exact Hbound|]. intros it Hit. simpl in *. lia.
Qed.

Lemma nodes_fresh_sublist h h' n (ls ls' : list node) :
  nodes_fresh h →
  notifiers h !! n = Some ls →
  notifiers h' = <[n := ls']> (notifiers h) →
  next_node h' = next_node h →
  ls'.*1 `sublist_of` ls.*1 →
  nodes_fresh h'.
Proof.
  intros Hfresh Hn Hn' Hk Hsub.
  destruct (Hfresh n ls Hn) as [Hnodup Hbound]. simpl in *.
  apply (nodes_fresh_insert h h' n ls'); [done|done|lia| |].
  - by eapply sublist_NoDup.
  - rewrite Hk. apply Forall_forall. intros it Hit.
    rewrite Forall_forall in Hbound. apply Hbound. by eapply elem_of_sublist.
Qed.

Lemma list_erase_at_sublist (pos : nat) (ls ls' : list node) :
  list_erase_at pos ls = Some ls' → ls'.*1 `sublist_of` ls.*1.
Proof.
  unfold list_erase_at. case_decide; [|done]. intros [= <-].
  rewrite list_fmap_delete. apply sublist_delete.
Qed.

Lemma disconnect_iterator_fresh n it h h' :
  disconnect_iterator n it h = Some h' → nodes_fresh h → nodes_fresh h'.
Proof.
  unfold disconnect_iterator. destruct (notifiers h !! n) as [ls|] eqn:Hn; [|done].
  simpl. destruct (list_erase_at _ ls) as [ls'|] eqn:He; [|done]. simpl.
  intros [= <-] Hfresh.
  eapply (nodes_fresh_sublist h _ n ls ls'); [done..|].
  by eapply list_erase_at_sublist.
Qed.

Lemma disconnect_object_fresh n obj h h' :
  disconnect_object n obj h = Some h' → nodes_fresh h → nodes_fresh h'.
Proof.
  unfold disconnect_object. destruct (notifiers h !! n) as [ls|] eqn:Hn; [|done].
  simpl. destruct (list_erase_at _ _) as [ls'|] eqn:He; [|done]. simpl.
  intros [= <-] Hfresh.
  eapply (nodes_fresh_sublist h _ n ls ls'); [done..|].
  apply list_erase_at_sublist in He.
  rewrite fst_zip in He; [done|].
  rewrite remove_if_keeps_length, !length_fmap. lia.
Qed.

Lemma connect_fresh n (lstnr : listener) h h' :
  connect_ n lstnr h = Some h' → nodes_fresh h → nodes_fresh h'.
Proof.
  unfold connect_. destruct (connect n lstnr h) as [[c h1]|] eqn:Hc; [|done].
  simpl. intros [= <-] Hfresh.
  apply connect_push_front in Hc as (ls & Hls & _ & Hn1 & Hk1).
  destruct (Hfresh n ls Hls) as [Hnodup Hbound]. simpl in *.
  apply (nodes_fresh_insert h h1 n ((next_node h, lstnr) :: ls)); [done|done|lia| |].
  - simpl. apply NoDup_cons. split; [|done].
    intros Hin. rewrite Forall_forall in Hbound. specialize (Hbound _ Hin).
    simpl in Hbound. lia.
  - rewrite Hk1. simpl. constructor; [lia|].
    eapply Forall_impl; [exact Hbound|]. intros it Hit. simpl in *. lia.
Qed.

Lemma copy_nodes_fresh start (ls : list node) :
  NoDup ((copy_nodes start ls).*1) ∧
  Forall (λ it, it < start + length ls) ((copy_nodes start ls).*1).
Proof.
  unfold copy_nodes. rewrite fst_zip by (rewrite length_seq, length_fmap; lia).
  split; [apply NoDup_seq|]. apply Forall_seq. intros j Hj. simpl. lia.
Qed.

Lemma zip_fst_sublist {A B} (l : list A) (k : list B) : (zip l k).*1 `sublist_of` l.
Proof.
  revert k. induction l as [|x l IH]; intros k; [done|].
  destruct k as [|y k]; simpl.
  - apply sublist_nil_l.
  - apply sublist_skip, IH.
Qed.

Lemma assign_nodes_fresh start (old ls : list node) :
  NoDup (old.*1) →
  Forall (λ it, it < start) (old.*1) →
  NoDup ((assign_nodes start old ls).*1) ∧
  Forall (λ it, it < start + (length ls - length old)) ((assign_nodes start old ls).*1).
Proof.
  intros Hnodup Hbound. unfold assign_nodes.
  set (ids := old.*1 ++ seq start (length ls - length old)).
  assert (NoDup ids) as Hids.
  { apply NoDup_app. split_and!; [done| |apply NoDup_seq].
    intros it Hit Hseq. rewrite Forall_forall in Hbound.
    specialize (Hbound it Hit). simpl in Hbound. apply elem_of_seq in Hseq. lia. }
  assert (Forall (λ it, it < start + (length ls - length old)) ids) as Hlt.
  { apply Forall_app. split.
    - eapply Forall_impl; [exact Hbound|]. intros it Hit. simpl in *. lia.
    - apply Forall_seq. intros j Hj. simpl. lia. }
  pose proof (zip_fst_sublist ids (ls.*2)) as Hsub. split.
  - by eapply sublist_NoDup.
  - apply Forall_forall. intros it Hit. rewrite Forall_forall in Hlt.
    apply Hlt. by eapply elem_of_sublist.
Qed.

Lemma for_each_untrack_listener_nodes n (ls : list node) h h' :
  for_each (untrack_listener n) ls h = Some h' →
  notifiers h' = notifiers h ∧ next_node h' = next_node h.
Proof.
  revert h. induction ls as [|nd ls IH]; intros h.
  - by intros [= <-].
  - change (for_each (untrack_listener n) (nd :: ls) h)
      with (untrack_listener n nd h ≫= for_each (untrack_listener n) ls).
    destruct (untrack_listener n nd h) as [h1|] eqn:Hun; [|done]. simpl.
    intros Hrest. apply IH in Hrest as [Hn' Hk'].
    apply untrack_listener_frame in Hun as (Hn1 & Hk1 & _).
    split; congruence.
Qed.

Lemma for_each_callback_fresh (cbs : list callback) h h' :
  for_each callback_call cbs h = Some h' → nodes_fresh h → nodes_fresh h'.
Proof.
  revert h. induction cbs as [|cb cbs IH]; intros h.
  - by intros [= <-].
  - change (for_each callback_call (cb :: cbs) h)
      with (callback_call cb h ≫= for_each callback_call cbs).
    destruct (callback_call cb h) as [h1|] eqn:Hcall; [|done]. simpl.
    intros Hrest Hfresh. apply (IH h1 Hrest).
    unfold callback_call, disconnect_trackable in Hcall. destruct (cb_function cb).
    by eapply disconnect_object_fresh.
Qed.

Lemma exec_fresh (c : call) h h' :
  exec c h = Some h' → nodes_fresh h → nodes_fresh h'.
Proof.
  destruct c as [n|n' n|n' n|n|n lstnr|c|n obj|n|o|o' o|o]; simpl; intros Hexec Hfresh.
  - unfold notifier_ctor in Hexec. destruct (notifiers h !! n); [done|].
    injection Hexec as <-.
    apply (nodes_fresh_insert h _ n []); [done|done|done|apply NoDup_nil_2|constructor].
  - unfold notifier_copy_ctor in Hexec.
    destruct (notifiers h !! n) as [ls|]; [|done]. simpl in Hexec.
    destruct (notifiers h !! n'); [done|]. injection Hexec as <-.
    destruct (copy_nodes_fresh (next_node h) ls) as [Hnodup Hbound].
    apply (nodes_fresh_insert h _ n' (copy_nodes (next_node h) ls));
      [done|done|simpl; lia|done|done].
  - unfold notifier_copy_assign in Hexec.
    destruct (notifiers h !! n) as [ls|]; [|done]. simpl in Hexec.
    destruct (notifiers h !! n') as [old|] eqn:Hold; [|done]. simpl in Hexec.
    case_decide; injection Hexec as <-; [done|].
    destruct (assign_nodes_fresh (next_node h) old ls) as [Hnodup Hbound];
      [apply (Hfresh n' old Hold)..|].
    apply (nodes_fresh_insert h _ n' (assign_nodes (next_node h) old ls));
      [done|done|simpl; lia|done|done].
  - unfold notifier_dtor in Hexec.
    destruct (notifiers h !! n) as [ls|]; [|done]. simpl in Hexec.
    destruct (for_each (untrack_listener n) ls h) as [h1|] eqn:Hrun; [|done].
    injection Hexec as <-.
    apply for_each_untrack_listener_nodes in Hrun as [Hn1 Hk1].
    unfold nodes_fresh in *. simpl. rewrite Hn1, Hk1. by apply map_Forall_delete.
  - by eapply connect_fresh.
  - unfold connection_disconnect in Hexec. destruct (m_notifier c) as [n|].
    + destruct (disconnect_iterator n (m_listener c) h) as [h1|] eqn:Hd; [|done].
      injection Hexec as <-. by eapply disconnect_iterator_fresh.
    + by injection Hexec as <-.
  - by eapply disconnect_object_fresh.
  - unfold disconnect_all in Hexec.
    destruct (notifiers h !! n) as [ls|] eqn:Hn; [|done]. injection Hexec as <-.
    apply (nodes_fresh_sublist h _ n ls []); [done..|apply sublist_nil_l].
  - unfold trackable_ctor in Hexec. destruct (trackables h !! o); [done|].
    by injection Hexec as <-.
  - unfold trackable_copy_ctor in Hexec.
    destruct (trackables h !! o); [|done]. simpl in Hexec.
    destruct (trackables h !! o'); [done|]. by injection Hexec as <-.
  - unfold trackable_dtor in Hexec.
    destruct (trackables h !! o) as [cbs|]; [|done]. simpl in Hexec.
    destruct (for_each callback_call cbs h) as [h1|] eqn:Hrun; [|done].
    injection Hexec as <-.
    apply (nodes_fresh_same h1); [done..|]. by eapply for_each_callback_fresh.
Qed.

(** X19. Whatever calls a program makes, starting with no object at all,
    as long as they are defined: the nodes of every notifier's list are
    pairwise distinct and each was handed out by an earlier [connect] or
    copy.  A connection thus never designates two elements of its
    notifier, and the node of a later [connect] is a new one. *)
Theorem reachable_nodes_fresh (calls : list call) (h : heap) :
  run (exec <$> calls) empty_heap = Some h →
  nodes_fresh h.
Proof.
  assert (∀ h0, nodes_fresh h0 → run (exec <$> calls) h0 = Some h → nodes_fresh h)
    as Hgen.
  { unfold run. induction calls as [|c calls IH]; intros h0 Hfresh.
    - by intros [= <-].
    - change (for_each (λ call, call) (exec <$> c :: calls) h0)
        with (exec c h0 ≫= for_each (λ call, call) (exec <$> calls)).
      destruct (exec c h0) as [h1|] eqn:Hexec; [|done]. simpl.
      apply IH. by eapply exec_fresh. }
  apply Hgen. unfold nodes_fresh, empty_heap. simpl. apply map_Forall_empty.
Qed.

Lemma reachable_nodes_fresh_witness :
  let calls := [NotifierCtor ex_notifier; TrackableCtor ex_object;
                Connect ex_notifier ex_X; Connect ex_notifier ex_A;
                Connect ex_notifier ex_B;
                ConnectionDisconnect (Connection (Some ex_notifier) 1);
                NotifierCopyCtor ex_copy ex_notifier;
                DisconnectObject ex_notifier ex_object] in
  let cb := Callback disconnect_trackable_thunk ex_notifier ex_object in
  let h := Heap {[ex_notifier := [(2, ex_X)]; ex_copy := [(3, ex_B); (4, ex_X)]]}
             {[ex_object := [cb; cb]]} 5 in
  run (exec <$> calls) empty_heap = Some h ∧ nodes_fresh h.
Proof.
  intros calls cb h.
  assert (run (exec <$> calls) empty_heap = Some h) as Hrun by reflexivity.
  split; [exact Hrun|].
  exact (reachable_nodes_fresh calls h Hrun).
Defined.
